(** * arxiv-nest-go: feed ingestion pipeline

    A shallow embedding of the ingestion pipeline of arxiv-nest-go
    (internal/arxiv/parser.go, internal/arxiv/client.go, internal/db/queries.go
    and the scheduler of cmd/server/main.go), followed by the properties of
    the pipeline that the specification states, and by properties of the
    code around it: the queries of the store, the configuration
    (internal/config/config.go), the fetch cycle and the endpoints of
    internal/server/handlers.go.

    Go strings are immutable byte sequences: they are modelled as
    [list ascii].  Library functions of the Go standard library that the
    pipeline calls (regexp, strings, time, net/http, encoding/xml) are either
    modelled on bytes from their documented behaviour, or taken as section
    variables where only their interface matters. *)

From Stdlib Require Import Ascii String List ZArith Lia Bool.
From stdpp Require Import base option list sorting gmap strings.

Set Default Proof Using "Type".

(** A string literal read as a Go string. *)
Definition str (s : string) : list ascii := list_ascii_of_string s.

(** The value of an arithmetic result in Go's [int] of 64 bits: it wraps
    around. *)
Definition int (z : Z) : Z := ((z + 2 ^ 63) mod 2 ^ 64 - 2 ^ 63)%Z.

(** Bring both sides of an equation between concatenations to the same
    right-nested form. *)
Ltac assoc_right := repeat (progress (rewrite <- ?app_assoc; simpl)).

(** ** Package strings *)
Module strings.

(** [strings.Join(elems, sep)]. *)
Fixpoint Join (elems : list (list ascii)) (sep : list ascii) : list ascii :=
  match elems with
  | [] => []
  | [e] => e
  | e :: rest => e ++ sep ++ Join rest sep
  end.

Fixpoint has_prefix (p s : list ascii) : bool :=
  match p, s with
  | [], _ => true
  | a :: p', b :: s' => Ascii.eqb a b && has_prefix p' s'
  | _ :: _, [] => false
  end.

Definition byte (n : nat) : ascii := ascii_of_nat n.

(** UTF-8 encodings of the code points for which [unicode.IsSpace] holds:
    the ASCII ones (TAB, LF, VT, FF, CR, SPACE), U+0085, U+00A0, and the
    White_Space code points U+1680, U+2000..U+200A, U+2028, U+2029,
    U+202F, U+205F, U+3000. *)
Definition space_encodings : list (list ascii) :=
  [ [byte 9]; [byte 10]; [byte 11]; [byte 12]; [byte 13]; [byte 32];
    [byte 194; byte 133]; [byte 194; byte 160];
    [byte 225; byte 154; byte 128];
    [byte 226; byte 128; byte 128]; [byte 226; byte 128; byte 129];
    [byte 226; byte 128; byte 130]; [byte 226; byte 128; byte 131];
    [byte 226; byte 128; byte 132]; [byte 226; byte 128; byte 133];
    [byte 226; byte 128; byte 134]; [byte 226; byte 128; byte 135];
    [byte 226; byte 128; byte 136]; [byte 226; byte 128; byte 137];
    [byte 226; byte 128; byte 138];
    [byte 226; byte 128; byte 168]; [byte 226; byte 128; byte 169];
    [byte 226; byte 128; byte 175];
    [byte 226; byte 129; byte 159];
    [byte 227; byte 128; byte 128] ].

(** The encoding, among [encs], that [s] starts with. *)
Definition leading (encs : list (list ascii)) (s : list ascii)
  : option (list ascii) :=
  List.find (fun e => has_prefix e s) encs.

(** Drop leading runes while they are among [encs].  Every step removes at
    least one byte, so [length s] steps are always enough. *)
Fixpoint trim_n (encs : list (list ascii)) (fuel : nat) (s : list ascii)
  : list ascii :=
  match fuel with
  | O => s
  | S fuel' =>
      match leading encs s with
      | Some e => trim_n encs fuel' (drop (length e) s)
      | None => s
      end
  end.

(** [strings.TrimLeftFunc(s, unicode.IsSpace)]: runes are decoded from the
    front; an invalid byte decodes to U+FFFD, which is not a space. *)
Definition TrimLeftSpace (s : list ascii) : list ascii :=
  trim_n space_encodings (length s) s.

(** [strings.TrimRightFunc(s, unicode.IsSpace)]: runes are decoded from the
    back ([utf8.DecodeLastRuneInString]); the string ends with a space rune
    exactly when it ends with one of the encodings. *)
Definition TrimRightSpace (s : list ascii) : list ascii :=
  rev (trim_n (map (@rev ascii) space_encodings) (length s) (rev s)).

(** [strings.TrimSpace(s)]: leading, then trailing white space is cut. *)
Definition TrimSpace (s : list ascii) : list ascii :=
  TrimRightSpace (TrimLeftSpace s).

End strings.

(** ** Package regexp

    The fragment of RE2 syntax that the two patterns of parser.go use:
    character classes, concatenation, greedy bounded repetition of a class,
    the greedy [?], capture groups and [$] (without flag [m]: end of text).
    Matching is by backtracking with the Perl preference order, which is the
    leftmost-first match that package regexp returns. *)
Module regexp.

Inductive Regexp : Type :=
| OpCharClass (p : ascii -> bool)
| OpConcat (r1 r2 : Regexp)
| OpRepeat (p : ascii -> bool) (min : nat) (max : option nat)
| OpQuest (r : Regexp)
| OpCapture (i : nat) (r : Regexp)
| OpEndText.

(** Perl class [\d]: ASCII digits. *)
Definition class_d (c : ascii) : bool :=
  (48 <=? nat_of_ascii c)%nat && (nat_of_ascii c <=? 57)%nat.

(** Perl class [\s]: [[\t\n\f\r ]] (no vertical tab, ASCII only). *)
Definition class_s (c : ascii) : bool :=
  let n := nat_of_ascii c in
  (n =? 9)%nat || (n =? 10)%nat || (n =? 12)%nat || (n =? 13)%nat
  || (n =? 32)%nat.

Definition lit (a : ascii) (c : ascii) : bool := Ascii.eqb a c.

Arguments lit : simpl never.

(** Start and end offsets of each group; [None] for a group that did not
    take part in the match. *)
Definition Caps : Type := list (option (nat * nat)).

Definition below (n : nat) (max : option nat) : bool :=
  match max with
  | Some m => (n <? m)%nat
  | None => true
  end.

(** Greedy repetition of a class: [n] characters are already consumed;
    take one more when allowed and possible, and fall back to stopping
    here when the rest of the pattern fails further on. *)
Fixpoint rep (p : ascii -> bool) (min : nat) (max : option nat)
    (k : list ascii -> nat -> option Caps)
    (n : nat) (s : list ascii) (pos : nat) : option Caps :=
  let stop := if (min <=? n)%nat then k s pos else None in
  match s with
  | c :: s' =>
      if p c && below n max then
        match rep p min max k (S n) s' (S pos) with
        | Some r => Some r
        | None => stop
        end
      else stop
  | [] => stop
  end.

(** [run r s pos caps k]: match [r] at offset [pos], where [s] is the text
    from [pos] on, then continue with [k]. *)
Fixpoint run (r : Regexp) (s : list ascii) (pos : nat) (caps : Caps)
    (k : list ascii -> nat -> Caps -> option Caps) : option Caps :=
  match r with
  | OpCharClass p =>
      match s with
      | c :: s' => if p c then k s' (S pos) caps else None
      | [] => None
      end
  | OpConcat r1 r2 =>
      run r1 s pos caps (fun s' pos' caps' => run r2 s' pos' caps' k)
  | OpRepeat p min max =>
      rep p min max (fun s' pos' => k s' pos' caps) 0 s pos
  | OpQuest r1 =>
      match run r1 s pos caps k with
      | Some c => Some c
      | None => k s pos caps
      end
  | OpCapture i r1 =>
      run r1 s pos caps
        (fun s' pos' caps' => k s' pos' (<[i := Some (pos, pos')]> caps'))
  | OpEndText =>
      match s with
      | [] => k s pos caps
      | _ :: _ => None
      end
  end.

Fixpoint NumSubexp (r : Regexp) : nat :=
  match r with
  | OpConcat r1 r2 => NumSubexp r1 `max` NumSubexp r2
  | OpQuest r1 => NumSubexp r1
  | OpCapture i r1 => i `max` NumSubexp r1
  | _ => 0
  end.

(** A match of [re] that starts exactly at offset [pos]. *)
Definition match_at (re : Regexp) (s : list ascii) (pos : nat)
  : option Caps :=
  run re s pos (replicate (S (NumSubexp re)) None)
    (fun _ pos' caps => Some (<[0 := Some (pos, pos')]> caps)).

(** The leftmost match at or after offset [pos]. *)
Fixpoint find_from (re : Regexp) (s : list ascii) (pos : nat)
  : option Caps :=
  match match_at re s pos with
  | Some caps => Some caps
  | None =>
      match s with
      | [] => None
      | _ :: s' => find_from re s' (S pos)
      end
  end.

Definition submatch (text : list ascii) (c : option (nat * nat))
  : list ascii :=
  match c with
  | Some (a, b) => take (b - a) (drop a text)
  | None => []
  end.

(** [re.FindStringSubmatch(text)]: the text of the leftmost match and of
    its groups; the nil slice when there is no match. *)
Definition FindStringSubmatch (re : Regexp) (text : list ascii)
  : list (list ascii) :=
  match find_from re text 0 with
  | Some caps => map (submatch text) caps
  | None => []
  end.

(** Length of the match of [re] at the very start of [s]. *)
Definition match_len (re : Regexp) (s : list ascii) : option nat :=
  match match_at re s 0 with
  | Some (Some (_, e) :: _) => Some e
  | _ => None
  end.

(** Left-to-right replacement of all non-overlapping leftmost matches;
    [skip] bytes of a match already replaced are still to be passed over.
    An empty match replaces nothing (neither pattern of parser.go can
    match the empty string). *)
Fixpoint replace_from (re : Regexp) (repl : list ascii)
    (s : list ascii) (skip : nat) : list ascii :=
  match s with
  | [] => []
  | c :: s' =>
      match skip with
      | S n => replace_from re repl s' n
      | O =>
          match match_len re s with
          | Some (S n) => repl ++ replace_from re repl s' n
          | _ => c :: replace_from re repl s' 0
          end
      end
  end.

(** [re.ReplaceAllString(src, repl)] for a replacement without [$]. *)
Definition ReplaceAllString (re : Regexp) (src repl : list ascii)
  : list ascii :=
  replace_from re repl src 0.

End regexp.

(** ** Package models *)
Module models.

(** [time.Time]: an instant, counted from Go's zero time. *)
Definition Time : Type := Z.

Record Tag : Type := { Tag_ID : Z; Tag_Name : list ascii }.

Record Paper : Type := {
  ID : list ascii;
  Title : list ascii;
  Abstract : list ascii;
  Authors : list ascii;
  Categories : list ascii;
  PublishedAt : Time;
  UpdatedAt : Time;
  PDFUrl : list ascii;
  ArxivUrl : list ascii;
  CreatedAt : Time;
  (* populated via joins, not columns of table papers *)
  InLibrary : bool;
  IsRead : bool;
  Tags : list Tag
}.

End models.

(** ** Package arxiv: parser.go *)
Module parser.
Import regexp.

Record Author : Type := { Name : list ascii }.

Record Link : Type := {
  Href : list ascii;
  Rel : list ascii;
  Link_Type : list ascii;
  Link_Title : list ascii
}.

Record Category : Type := { Term : list ascii; Scheme : list ascii }.

Record Entry : Type := {
  ID : list ascii;
  Title : list ascii;
  Summary : list ascii;
  Published : list ascii;
  Updated : list ascii;
  Authors : list Author;
  Links : list Link;
  Categories : list Category
}.

Record Feed : Type := {
  Feed_Title : list ascii;
  Feed_ID : list ascii;
  Feed_Updated : list ascii;
  Entries : list Entry
}.

(** The errors that [fmt.Errorf] builds in parser.go; [%w] wraps. *)
Inductive error : Type :=
| ErrDecodeXML
| ErrExtractID (id : list ascii)
| ErrParseTime (timeStr : list ascii)
| ErrPublished (cause : error)
| ErrUpdated (cause : error).

(** [regexp.MustCompile(`(\d{4}\.\d{4,5})(v\d+)?$`)] *)
Definition arxivIDRegex : Regexp :=
  OpConcat
    (OpCapture 1
       (OpConcat (OpRepeat class_d 4 (Some 4))
          (OpConcat (OpCharClass (lit "."))
             (OpRepeat class_d 4 (Some 5)))))
    (OpConcat
       (OpQuest (OpCapture 2
          (OpConcat (OpCharClass (lit "v")) (OpRepeat class_d 1 None))))
       OpEndText).

(** [regexp.MustCompile(`\s+`)] *)
Definition whitespaceRegex : Regexp := OpRepeat class_s 1 None.

(** [extractArxivID]: group 1 of the match, the empty string without. *)
Definition extractArxivID (idStr : list ascii) : list ascii :=
  let matches := FindStringSubmatch arxivIDRegex idStr in
  if (1 <? length matches)%nat then default [] (matches !! 1) else [].

(** [cleanText]. *)
Definition cleanText (text : list ascii) : list ascii :=
  let text := ReplaceAllString whitespaceRegex text (str " ") in
  strings.TrimSpace text.

Section WithTimeParse.

(** [time.Parse(layout, value)] of the standard library; [None] stands
    for its error result. *)
Variable time_Parse : list ascii -> list ascii -> option models.Time.

Definition RFC3339 : list ascii := str "2006-01-02T15:04:05Z07:00".

Definition formats : list (list ascii) :=
  [ RFC3339;
    str "2006-01-02T15:04:05Z";
    str "2006-01-02T15:04:05-07:00" ].

(** The [for _, format := range formats] loop of [parseTime]. *)
Fixpoint parseTime_range (fs : list (list ascii)) (timeStr : list ascii)
  : models.Time + error :=
  match fs with
  | [] => inr (ErrParseTime timeStr)
  | format :: fs' =>
      match time_Parse format timeStr with
      | Some t => inl t
      | None => parseTime_range fs' timeStr
      end
  end.

Definition parseTime (timeStr : list ascii) : models.Time + error :=
  parseTime_range formats timeStr.

(** One iteration of the loop over [e.Links]: the pair is
    [(pdfURL, arxivURL)]. *)
Definition link_step (urls : list ascii * list ascii) (link : Link)
  : list ascii * list ascii :=
  if decide (Link_Title link = str "pdf") then (Href link, snd urls)
  else if decide (Rel link = str "alternate") then (fst urls, Href link)
  else urls.

Definition scan_links (links : list Link) : list ascii * list ascii :=
  fold_left link_step links ([], []).

(** [(e *Entry) ToPaper()]. *)
Definition ToPaper (e : Entry) : models.Paper + error :=
  let arxivID := extractArxivID (ID e) in
  if decide (arxivID = []) then inr (ErrExtractID (ID e))
  else
    match parseTime (Published e) with
    | inr err => inr (ErrPublished err)
    | inl publishedAt =>
        match parseTime (Updated e) with
        | inr err => inr (ErrUpdated err)
        | inl updatedAt =>
            let authors :=
              map (fun author => strings.TrimSpace (Name author))
                (Authors e) in
            let categories := map Term (Categories e) in
            let urls := scan_links (Links e) in
            let title := cleanText (Title e) in
            let abstract := cleanText (Summary e) in
            inl {| models.ID := arxivID;
                   models.Title := title;
                   models.Abstract := abstract;
                   models.Authors := strings.Join authors (str ", ");
                   models.Categories :=
                     strings.Join categories (str ", ");
                   models.PublishedAt := publishedAt;
                   models.UpdatedAt := updatedAt;
                   models.PDFUrl := fst urls;
                   models.ArxivUrl := snd urls;
                   models.CreatedAt := 0%Z;
                   models.InLibrary := false;
                   models.IsRead := false;
                   models.Tags := [] |}
        end
    end.

(** The loop of [ToPapers]: [i] is the index of the next entry,
    [papers] the slice built so far, [out] the warnings printed so far
    (entry index and error). *)
Fixpoint ToPapers_range (i : nat) (entries : list Entry)
    (papers : list models.Paper) (out : list (nat * error))
  : list models.Paper * list (nat * error) :=
  match entries with
  | [] => (papers, out)
  | entry :: rest =>
      match ToPaper entry with
      | inr err => ToPapers_range (S i) rest papers (out ++ [(i, err)])
      | inl paper => ToPapers_range (S i) rest (papers ++ [paper]) out
      end
  end.

(** [(f *Feed) ToPapers()]: the papers, the error result (always nil)
    and what was printed. *)
Definition ToPapers (f : Feed)
  : list models.Paper * option error * list (nat * error) :=
  let '(papers, out) := ToPapers_range 0 (Entries f) [] [] in
  (papers, None, out).

End WithTimeParse.

Section WithXML.

(** [xml.NewDecoder(r).Decode(&feed)] of the standard library. *)
Variable xml_Decode : list ascii -> option Feed.

Definition ParseFeed (r : list ascii) : Feed + error :=
  match xml_Decode r with
  | Some feed => inl feed
  | None => inr ErrDecodeXML
  end.

End WithXML.

End parser.

(** ** Package arxiv: client.go *)
Module client.
Import strings.

Definition apiBaseURL : list ascii := str "http://export.arxiv.org/api/query".

(** [time.Duration], in nanoseconds. *)
Definition Duration : Type := Z.

Record Client : Type := { rateLimitDelay : Duration }.

(** [buildSearchQuery]. *)
Definition buildSearchQuery (categories keywords : list (list ascii))
  : list ascii :=
  let parts : list (list ascii) := [] in
  let parts :=
    if (0 <? length categories)%nat then
      let catParts := map (fun cat => str "cat:" ++ cat) categories in
      if (length catParts =? 1)%nat
      then parts ++ [default [] (catParts !! 0%nat)]
      else parts ++ [str "(" ++ Join catParts (str " OR ") ++ str ")"]
    else parts in
  let parts :=
    if (0 <? length keywords)%nat then
      let kwParts := map (fun kw => str "all:" ++ kw) keywords in
      if (length kwParts =? 1)%nat
      then parts ++ [default [] (kwParts !! 0%nat)]
      else parts ++ [str "(" ++ Join kwParts (str " OR ") ++ str ")"]
    else parts in
  if (length parts =? 0)%nat then str "all:*"
  else Join parts (str " AND ").

(** A [*url.URL] built from [apiBaseURL] and a raw query. *)
Record URL : Type := { Base : list ascii; RawQuery : list ascii }.

Record Request : Type := {
  Method : list ascii;
  Req_URL : URL;
  UserAgent : list ascii
}.

Record Response : Type := { StatusCode : Z; Body : list ascii }.

Inductive error : Type :=
| ErrExecute (cause : list ascii)
| ErrStatus (code : Z) (body : list ascii)
| ErrParseFeed (cause : parser.error).

(** What the client does to the outside: the requests it has sent and the
    delays it has slept, oldest first. *)
Record World : Type := { sent : list Request; slept : list Duration }.

(** Computations that act on the world and may return early with an
    error. *)
Definition IO (A : Type) : Type := World -> (A + error) * World.

#[export] Instance IO_ret : MRet IO := fun A a w => (inl a, w).

#[export] Instance IO_bind : MBind IO :=
  fun A B f m w =>
    match m w with
    | (inl a, w') => f a w'
    | (inr e, w') => (inr e, w')
    end.

Definition fail {A} (e : error) : IO A := fun w => (inr e, w).

Section WithNetwork.

(** [c.httpClient.Do(req)]: the answer of the network to a request;
    [inr] is a transport error. *)
Variable transport : Request -> Response + list ascii.

(** [url.Values.Encode] of the standard library. *)
Variable Values_Encode : list (list ascii * list ascii) -> list ascii.

Variable xml_Decode : list ascii -> option parser.Feed.

Definition Do (req : Request) : IO Response :=
  fun w =>
    let w' := {| sent := sent w ++ [req]; slept := slept w |} in
    match transport req with
    | inl resp => (inl resp, w')
    | inr e => (inr (ErrExecute e), w')
    end.

Definition Sleep (d : Duration) : IO unit :=
  fun w => (inl tt, {| sent := sent w; slept := slept w ++ [d] |}).

Definition emptyFeed : parser.Feed :=
  {| parser.Feed_Title := []; parser.Feed_ID := [];
     parser.Feed_Updated := []; parser.Entries := [] |}.

(** [(c *Client) FetchByIDs(ctx, ids)].  Parsing the constant
    [apiBaseURL] and building the request cannot fail. *)
Definition FetchByIDs (c : Client) (ids : list (list ascii))
  : IO parser.Feed :=
  if (length ids =? 0)%nat then mret emptyFeed
  else
    let idList := Join ids (str ",") in
    let q := [(str "id_list", idList)] in
    let u := {| Base := apiBaseURL; RawQuery := Values_Encode q |} in
    let req := {| Method := str "GET"; Req_URL := u;
                  UserAgent := str "ArXiv-Go-Nest/1.0" |} in
    resp ← Do req;
    if negb (StatusCode resp =? 200)%Z
    then fail (ErrStatus (StatusCode resp) (Body resp))
    else
      match parser.ParseFeed xml_Decode (Body resp) with
      | inr err => fail (ErrParseFeed err)
      | inl feed =>
          _ ← Sleep (rateLimitDelay c);
          mret feed
      end.

(** The request scoped to an identifier list: its query holds
    [id_list] only, no [search_query]. *)
Definition id_list_request (ids : list (list ascii)) : Request :=
  {| Method := str "GET";
     Req_URL := {| Base := apiBaseURL;
                   RawQuery :=
                     Values_Encode
                       [(str "id_list", Join ids (str ","))] |};
     UserAgent := str "ArXiv-Go-Nest/1.0" |}.

End WithNetwork.

(** [FetchParams] *)
Record FetchParams : Type := {
  Categories : list (list ascii);
  Keywords : list (list ascii);
  MaxResults : Z;
  SortBy : list ascii;      (* "submittedDate", "lastUpdatedDate", "relevance" *)
  SortOrder : list ascii    (* "ascending", "descending" *)
}.

(** [NewClient] (the timeout of the http client is part of [transport]). *)
Definition NewClient (delay : Duration) : Client :=
  {| rateLimitDelay := delay |}.

(** [url.Values.Set(key, value)]: the value of the key is replaced, or the
    key is added.  ([Values.Encode] sorts by key, so the order of the
    pairs is immaterial to it.) *)
Fixpoint Values_Set (key value : list ascii)
    (q : list (list ascii * list ascii)) : list (list ascii * list ascii) :=
  match q with
  | [] => [(key, value)]
  | (k, v) :: q' =>
      if decide (k = key) then (key, value) :: q'
      else (k, v) :: Values_Set key value q'
  end.

Section WithNetworkAndFormat.

Variable transport : Request -> Response + list ascii.
Variable Values_Encode : list (list ascii * list ascii) -> list ascii.
Variable xml_Decode : list ascii -> option parser.Feed.

(** [fmt.Sprintf("%d", n)] of the standard library. *)
Variable Sprintf_d : Z -> list ascii.

(** [buildURL]: parsing the constant [apiBaseURL] cannot fail. *)
Definition buildURL (searchQuery : list ascii) (params : FetchParams) : URL :=
  let q : list (list ascii * list ascii) := [] in
  let q := Values_Set (str "search_query") searchQuery q in
  let q := Values_Set (str "max_results") (Sprintf_d (MaxResults params)) q in
  let sortBy :=
    if decide (SortBy params = []) then str "submittedDate"
    else SortBy params in
  let q := Values_Set (str "sortBy") sortBy q in
  let sortOrder :=
    if decide (SortOrder params = []) then str "descending"
    else SortOrder params in
  let q := Values_Set (str "sortOrder") sortOrder q in
  {| Base := apiBaseURL; RawQuery := Values_Encode q |}.

(** [(c *Client) FetchNew(ctx, params)]. *)
Definition FetchNew (c : Client) (params : FetchParams) : IO parser.Feed :=
  let searchQuery :=
    buildSearchQuery (Categories params) (Keywords params) in
  let apiURL := buildURL searchQuery params in
  let req := {| Method := str "GET"; Req_URL := apiURL;
                UserAgent := str "ArXiv-Go-Nest/1.0" |} in
  resp ← Do transport req;
  if negb (StatusCode resp =? 200)%Z
  then fail (ErrStatus (StatusCode resp) (Body resp))
  else
    match parser.ParseFeed xml_Decode (Body resp) with
    | inr err => fail (ErrParseFeed err)
    | inl feed =>
        _ ← Sleep (rateLimitDelay c);
        mret feed
    end.

End WithNetworkAndFormat.

End client.

(** ** Package db: schema.sql and queries.go *)
Module db.

(** A row of table [papers]; column [id] is the key of the map. *)
Record PaperRow : Type := {
  title : list ascii;
  abstract : list ascii;
  authors : list ascii;
  categories : list ascii;
  published_at : models.Time;
  updated_at : models.Time;
  pdf_url : list ascii;
  arxiv_url : list ascii;
  created_at : models.Time
}.

(** A row of table [library]; column [paper_id] is the key. *)
Record LibraryRow : Type := { is_read : bool; saved_at : models.Time }.

Record DB : Type := {
  papers : gmap (list ascii) PaperRow;
  library : gmap (list ascii) LibraryRow;
  tags : gmap Z (list ascii);
  paper_tags : gset (list ascii * Z)
}.

Definition empty : DB :=
  {| papers := ∅; library := ∅; tags := ∅; paper_tags := ∅ |}.

(** [UpsertPaper]: the statement [INSERT INTO papers (...) VALUES (...)
    ON CONFLICT(id) DO UPDATE SET ...] executed at time [now]
    ([CURRENT_TIMESTAMP], the default of column [created_at]). *)
Definition UpsertPaper (now : models.Time) (paper : models.Paper) (d : DB)
  : DB :=
  let created :=
    match papers d !! models.ID paper with
    | Some old => created_at old
    | None => now
    end in
  let row :=
    {| title := models.Title paper;
       abstract := models.Abstract paper;
       authors := models.Authors paper;
       categories := models.Categories paper;
       published_at := models.PublishedAt paper;
       updated_at := models.UpdatedAt paper;
       pdf_url := models.PDFUrl paper;
       arxiv_url := models.ArxivUrl paper;
       created_at := created |} in
  {| papers := <[models.ID paper := row]> (papers d);
     library := library d;
     tags := tags d;
     paper_tags := paper_tags d |}.

(** [SaveToLibrary]: [INSERT INTO library (paper_id) VALUES (?)
    ON CONFLICT(paper_id) DO NOTHING]. *)
Definition SaveToLibrary (now : models.Time) (paperID : list ascii) (d : DB)
  : DB :=
  match library d !! paperID with
  | Some _ => d
  | None =>
      {| papers := papers d;
         library :=
           <[paperID := {| is_read := false; saved_at := now |}]>
             (library d);
         tags := tags d;
         paper_tags := paper_tags d |}
  end.

(** [ToggleRead]: [UPDATE library SET is_read = NOT is_read WHERE
    paper_id = ?]. *)
Definition ToggleRead (paperID : list ascii) (d : DB) : DB :=
  {| papers := papers d;
     library :=
       alter (fun r => {| is_read := negb (is_read r);
                          saved_at := saved_at r |}) paperID (library d);
     tags := tags d;
     paper_tags := paper_tags d |}.

(** [TagPaper]: [INSERT INTO paper_tags (paper_id, tag_id) VALUES (?, ?)
    ON CONFLICT DO NOTHING]. *)
Definition TagPaper (paperID : list ascii) (tagID : Z) (d : DB) : DB :=
  {| papers := papers d;
     library := library d;
     tags := tags d;
     paper_tags := {[ (paperID, tagID) ]} ∪ paper_tags d |}.

(** [RemoveFromLibrary]: [DELETE FROM library WHERE paper_id = ?]. *)
Definition RemoveFromLibrary (paperID : list ascii) (d : DB) : DB :=
  {| papers := papers d;
     library := delete paperID (library d);
     tags := tags d;
     paper_tags := paper_tags d |}.

(** [UntagPaper]: [DELETE FROM paper_tags WHERE paper_id = ? AND
    tag_id = ?]. *)
Definition UntagPaper (paperID : list ascii) (tagID : Z) (d : DB) : DB :=
  {| papers := papers d;
     library := library d;
     tags := tags d;
     paper_tags := paper_tags d ∖ {[ (paperID, tagID) ]} |}.

(** The order of the BINARY collation of SQLite on text: bytewise, a
    proper prefix first. *)
Fixpoint bytes_le (a b : list ascii) : bool :=
  match a, b with
  | [], _ => true
  | _ :: _, [] => false
  | x :: a', y :: b' =>
      if (nat_of_ascii x <? nat_of_ascii y)%nat then true
      else if (nat_of_ascii y <? nat_of_ascii x)%nat then false
      else bytes_le a' b'
  end.

(** The rows of table [tags]. *)
Definition tag_rows (d : DB) : list models.Tag :=
  (fun kv => {| models.Tag_ID := kv.1; models.Tag_Name := kv.2 |})
    <$> map_to_list (tags d).

Definition by_name (t1 t2 : models.Tag) : Prop :=
  bytes_le (models.Tag_Name t1) (models.Tag_Name t2) = true.

#[export] Instance by_name_dec t1 t2 : Decision (by_name t1 t2).
Proof. unfold by_name. apply _. Defined.

(** [ORDER BY name] *)
Definition order_by_name (rows : list models.Tag) : list models.Tag :=
  merge_sort by_name rows.

(** [GetAllTags]: [SELECT * FROM tags ORDER BY name]. *)
Definition GetAllTags (d : DB) : list models.Tag :=
  order_by_name (tag_rows d).

(** [GetPaperTags]: [SELECT t.* FROM tags t JOIN paper_tags pt ON t.id =
    pt.tag_id WHERE pt.paper_id = ? ORDER BY t.name]. *)
Definition GetPaperTags (paperID : list ascii) (d : DB) : list models.Tag :=
  order_by_name
    (filter (fun t => (paperID, models.Tag_ID t) ∈ paper_tags d)
       (tag_rows d)).

(** [SELECT * FROM tags WHERE name = ?], scanned into one row. *)
Definition tag_by_name (name : list ascii) (d : DB) : option Z :=
  models.Tag_ID
    <$> head (filter (fun t => models.Tag_Name t = name) (tag_rows d)).

(** The id that [INTEGER PRIMARY KEY AUTOINCREMENT] gives to the next row
    of [tags]: one more than the largest id ever used.  No statement of
    the package deletes a row of [tags], so that is the largest id of the
    table. *)
Definition next_tag_id (d : DB) : Z :=
  1 + foldr Z.max 0%Z (models.Tag_ID <$> tag_rows d).

(** [CreateTag]: the id of the tag of that name, inserted if there is
    none. *)
Definition CreateTag (name : list ascii) (d : DB) : Z * DB :=
  match tag_by_name name d with
  | Some id => (id, d)
  | None =>
      let id := next_tag_id d in
      (id, {| papers := papers d;
              library := library d;
              tags := <[id := name]> (tags d);
              paper_tags := paper_tags d |})
  end.

(** The constraint [name TEXT UNIQUE] of table [tags]. *)
Definition names_unique (d : DB) : Prop :=
  ∀ i j name, tags d !! i = Some name → tags d !! j = Some name → i = j.

Inductive error : Type :=
| ErrPaperNotFound (id : list ascii).

(** [GetPaperByID]: the row of [papers] left-joined with [library], and
    the tags of the paper. *)
Definition GetPaperByID (id : list ascii) (d : DB) : models.Paper + error :=
  match papers d !! id with
  | None => inr (ErrPaperNotFound id)
  | Some row =>
      inl {| models.ID := id;
             models.Title := title row;
             models.Abstract := abstract row;
             models.Authors := authors row;
             models.Categories := categories row;
             models.PublishedAt := published_at row;
             models.UpdatedAt := updated_at row;
             models.PDFUrl := pdf_url row;
             models.ArxivUrl := arxiv_url row;
             models.CreatedAt := created_at row;
             models.InLibrary := bool_decide (is_Some (library d !! id));
             models.IsRead := from_option is_read false (library d !! id);
             models.Tags := GetPaperTags id d |}
  end.

(** The offset that [GetPapers] computes from [params.Page] and
    [params.PageSize]. *)
Definition offset (page pageSize : Z) : Z :=
  let offset := int (int (page - 1) * pageSize) in
  if (offset <? 0)%Z then 0%Z else offset.

(** [LIMIT ? OFFSET ?] on the ordered rows of a query: a negative limit is
    no limit, a negative offset is none. *)
Definition limit_offset {A : Type} (limit offset : Z) (rows : list A)
  : list A :=
  let rest := drop (Z.to_nat offset) rows in
  if (limit <? 0)%Z then rest else take (Z.to_nat limit) rest.

(** [GetPaperCount]: [SELECT COUNT( * ) FROM papers]. *)
Definition GetPaperCount (d : DB) : nat := size (papers d).

(** [GetLibraryCount]: [SELECT COUNT( * ) FROM library]. *)
Definition GetLibraryCount (d : DB) : nat := size (library d).

End db.

(** ** Package config *)
Module config.

Record ServerConfig : Type := { Host : list ascii; Port : Z }.

Record DatabaseConfig : Type := { Path : list ascii }.

Record ArXivConfig : Type := {
  Categories : list (list ascii);
  Keywords : list (list ascii);
  MaxResults : Z;
  FetchInterval : Z;      (* time.Duration, nanoseconds *)
  RateLimitDelay : Z
}.

Record UIConfig : Type := { PageSize : Z }.

Record Config : Type := {
  Server : ServerConfig;
  Database : DatabaseConfig;
  ArXiv : ArXivConfig;
  UI : UIConfig
}.

(** The default configuration of [Load]. *)
Definition defaults : Config :=
  {| Server := {| Host := str "0.0.0.0"; Port := 8080 |};
     Database := {| Path := str "./data/arxiv.db" |};
     ArXiv := {| Categories := [str "cs.AI"; str "cs.LG"; str "cs.CL"];
                 Keywords := [];
                 MaxResults := 100;
                 FetchInterval := 24 * 3600 * 1000000000;
                 RateLimitDelay := 3 * 1000000000 |};
     UI := {| PageSize := 20 |} |}.

(** The three outcomes of [os.ReadFile] that [Load] tells apart. *)
Inductive read_result : Type :=
| ReadOK (data : list ascii)
| ReadNotExist
| ReadFailed.

Inductive error : Type := ErrReadConfig | ErrParseConfig.

Section WithOS.

Variable os_ReadFile : list ascii -> read_result.

(** [yaml.Unmarshal(data, cfg)]: the configuration with the values of the
    document written over it; [None] for its error. *)
Variable yaml_Unmarshal : list ascii -> Config -> option Config.

Variable os_Getenv : list ascii -> list ascii.

(** [fmt.Sscanf(s, "%d", &n)]: the integer, [None] for an error. *)
Variable Sscanf_d : list ascii -> option Z.

(** An integer taken from the environment, if set and well-formed. *)
Definition env_int (key : list ascii) (current : Z) : Z :=
  let value := os_Getenv key in
  if decide (value = []) then current
  else match Sscanf_d value with
       | Some n => n
       | None => current
       end.

Definition env_string (key : list ascii) (current : list ascii)
  : list ascii :=
  let value := os_Getenv key in
  if decide (value = []) then current else value.

(** The second half of [Load]: the overrides from the environment. *)
Definition override (cfg : Config) : Config :=
  {| Server := {| Host := env_string (str "SERVER_HOST") (Host (Server cfg));
                  Port := env_int (str "SERVER_PORT") (Port (Server cfg)) |};
     Database :=
       {| Path := env_string (str "DB_PATH") (Path (Database cfg)) |};
     ArXiv :=
       {| Categories := Categories (ArXiv cfg);
          Keywords := Keywords (ArXiv cfg);
          MaxResults :=
            env_int (str "ARXIV_MAX_RESULTS") (MaxResults (ArXiv cfg));
          FetchInterval := FetchInterval (ArXiv cfg);
          RateLimitDelay := RateLimitDelay (ArXiv cfg) |};
     UI := {| PageSize := env_int (str "UI_PAGE_SIZE") (PageSize (UI cfg)) |}
  |}.

(** [Load]. *)
Definition Load (configPath : list ascii) : Config + error :=
  let cfg := defaults in
  let loaded :=
    if decide (configPath = []) then inl cfg
    else match os_ReadFile configPath with
         | ReadFailed => inr ErrReadConfig
         | ReadNotExist => inl cfg
         | ReadOK data =>
             match yaml_Unmarshal data cfg with
             | None => inr ErrParseConfig
             | Some cfg' => inl cfg'
             end
         end in
  match loaded with
  | inr err => inr err
  | inl cfg => inl (override cfg)
  end.

End WithOS.

End config.

(** ** Command server: one ingestion cycle (main.go) *)
Module ingest.

(** What a cycle reports in the log. *)
Inductive outcome : Type :=
| FetchError (err : client.error)
| ParseError (err : parser.error)
| Stored (count : nat).

Section WithEnvironment.

Variable transport : client.Request -> client.Response + list ascii.
Variable Values_Encode : list (list ascii * list ascii) -> list ascii.
Variable xml_Decode : list ascii -> option parser.Feed.
Variable Sprintf_d : Z -> list ascii.
Variable time_Parse : list ascii -> list ascii -> option models.Time.

(** [CURRENT_TIMESTAMP] at the statement of the [i]-th paper of the
    batch. *)
Variable clock : nat -> models.Time.

(** The loop [for _, paper := range papers] with its counter. *)
Fixpoint upsert_range (i : nat) (papers : list models.Paper)
    (database : db.DB) (count : nat) : db.DB * nat :=
  match papers with
  | [] => (database, count)
  | paper :: rest =>
      upsert_range (S i) rest (db.UpsertPaper (clock i) paper database)
        (S count)
  end.

(** [fetchPapers(cfg, database)]. *)
Definition fetchPapers (cfg : config.Config) (w : client.World)
    (database : db.DB) : client.World * db.DB * outcome :=
  let c := client.NewClient (config.RateLimitDelay (config.ArXiv cfg)) in
  let params :=
    {| client.Categories := config.Categories (config.ArXiv cfg);
       client.Keywords := config.Keywords (config.ArXiv cfg);
       client.MaxResults := config.MaxResults (config.ArXiv cfg);
       client.SortBy := str "submittedDate";
       client.SortOrder := str "descending" |} in
  match client.FetchNew transport Values_Encode xml_Decode Sprintf_d
          c params w with
  | (inr err, w') => (w', database, FetchError err)
  | (inl feed, w') =>
      match parser.ToPapers time_Parse feed with
      | (_, Some err, _) => (w', database, ParseError err)
      | (papers, None, _) =>
          let '(database', count) := upsert_range 0 papers database 0 in
          (w', database', Stored count)
      end
  end.

End WithEnvironment.

End ingest.

(** ** Package server: the HTMX endpoints and the paging of the lists

    The store of the model does not fail, so the branches of the handlers
    that answer to an error of a statement are left out. *)
Module server.

Definition StatusOK : Z := 200.
Definition StatusBadRequest : Z := 400.
Definition StatusInternalServerError : Z := 500.

(** What a handler writes: the text of [http.Error], or the format of its
    [fmt.Fprintf] with the arguments. *)
Inductive body : Type :=
| Error (msg : list ascii)
| ReadButton (id : list ascii)         (* btn-success, Read *)
| MarkAsReadButton (id : list ascii)   (* btn-outline, Mark as Read *)
| TagSpans (paperID : list ascii) (tags : list models.Tag).
                                       (* one span for each tag, in order *)

Record Response : Type := { Status : Z; Body : body }.

(** The form of a request, as [r.FormValue] reads it; [None] when
    [r.ParseForm] fails. *)
Definition Form : Type := option (list ascii -> list ascii).

(** [HandleToggleRead], with [id] the URL parameter. *)
Definition HandleToggleRead (id : list ascii) (d : db.DB)
  : Response * db.DB :=
  let d' := db.ToggleRead id d in
  match db.GetPaperByID id d' with
  | inr _ =>
      ({| Status := StatusInternalServerError;
          Body := Error (str "Failed to fetch paper") |}, d')
  | inl paper =>
      ({| Status := StatusOK;
          Body := if models.IsRead paper then ReadButton id
                  else MarkAsReadButton id |}, d')
  end.

(** [HandleAddTag]. *)
Definition HandleAddTag (form : Form) (d : db.DB) : Response * db.DB :=
  match form with
  | None =>
      ({| Status := StatusBadRequest;
          Body := Error (str "Invalid form data") |}, d)
  | Some FormValue =>
      let paperID := FormValue (str "paper_id") in
      let tagName := strings.TrimSpace (FormValue (str "tag_name")) in
      if decide (paperID = [] ∨ tagName = []) then
        ({| Status := StatusBadRequest;
            Body := Error (str "Missing paper_id or tag_name") |}, d)
      else
        let '(tagID, d1) := db.CreateTag tagName d in
        let d2 := db.TagPaper paperID tagID d1 in
        ({| Status := StatusOK;
            Body := TagSpans paperID (db.GetPaperTags paperID d2) |}, d2)
  end.

(** [totalPages := (total + h.config.UI.PageSize - 1) /
    h.config.UI.PageSize] of [HandleIndex] and [HandleLibrary]; [None] is
    the run-time panic of an integer division by zero. *)
Definition totalPages (total pageSize : Z) : option Z :=
  if (pageSize =? 0)%Z then None
  else Some (int (Z.quot (int (int (total + pageSize) - 1)) pageSize)).

Section WithStrconv.

(** [strconv.Atoi]: the integer, [None] for an error. *)
Variable Atoi : list ascii -> option Z.

(** [HandleRemoveTag]. *)
Definition HandleRemoveTag (form : Form) (d : db.DB) : Response * db.DB :=
  match form with
  | None =>
      ({| Status := StatusBadRequest;
          Body := Error (str "Invalid form data") |}, d)
  | Some FormValue =>
      let paperID := FormValue (str "paper_id") in
      let tagIDStr := FormValue (str "tag_id") in
      match Atoi tagIDStr with
      | None =>
          ({| Status := StatusBadRequest;
              Body := Error (str "Invalid tag_id") |}, d)
      | Some tagID =>
          let d1 := db.UntagPaper paperID tagID d in
          ({| Status := StatusOK;
              Body := TagSpans paperID (db.GetPaperTags paperID d1) |}, d1)
      end
  end.

(** [getIntParam(r, key, defaultValue)], with [query] for
    [r.URL.Query().Get]. *)
Definition getIntParam (query : list ascii -> list ascii) (key : list ascii)
    (defaultValue : Z) : Z :=
  let valueStr := query key in
  if decide (valueStr = []) then defaultValue
  else match Atoi valueStr with
       | None => defaultValue
       | Some value => if (value <? 1)%Z then defaultValue else value
       end.

End WithStrconv.

End server.

(** ** Command server: the scheduler of main.go

    [startScheduler] creates a ticker and a stop channel, starts a goroutine
    and returns a function that closes the stop channel.  The goroutine is a
    small state machine; the runtime (timers, the ticker, the caller of the
    stop function) acts on it through events. *)
Module scheduler.

Definition Second : Z := 1000000000.

(** Where the goroutine is. *)
Inductive pc : Type :=
| Sleeping      (* in time.Sleep(10 * time.Second) *)
| Fetching      (* in fetchPapers(cfg, database) *)
| Selecting     (* blocked in select *)
| Returned.     (* after ticker.Stop(); return *)

Inductive observation : Type := StopSignal | CycleStart | CycleEnd.

Record state : Type := {
  now : Z;                    (* the clock, in nanoseconds since start *)
  at_pc : pc;
  wake_at : Z;                (* when time.Sleep is due to return *)
  next_tick : Z;              (* when the ticker fires next *)
  ticker_C : bool;            (* ticker.C (capacity 1) holds a tick *)
  ticker_stopped : bool;
  stopChan_closed : bool;
  log : list (Z * observation)
}.

Inductive event : Type :=
| Advance (d : Z)   (* time passes *)
| Tick              (* the ticker fires: a tick is sent on ticker.C *)
| Stop              (* the function returned by startScheduler is called *)
| WakeUp            (* time.Sleep returns; fetchPapers is called *)
| FetchDone         (* fetchPapers returns *)
| RecvTick          (* select takes case <-ticker.C; fetchPapers is called *)
| RecvStop.         (* select takes case <-stopChan *)

(** The state right after [startScheduler(cfg, database)] returned, with
    [interval = cfg.ArXiv.FetchInterval]. *)
Definition start (interval : Z) : state :=
  {| now := 0; at_pc := Sleeping; wake_at := 10 * Second;
     next_tick := interval; ticker_C := false; ticker_stopped := false;
     stopChan_closed := false; log := [] |}.

Definition set_pc (p : pc) (o : list observation) (s : state) : state :=
  {| now := now s; at_pc := p; wake_at := wake_at s;
     next_tick := next_tick s; ticker_C := ticker_C s;
     ticker_stopped := ticker_stopped s;
     stopChan_closed := stopChan_closed s;
     log := log s ++ map (fun x => (now s, x)) o |}.

(** One event; [None] when the event cannot happen in this state.  When
    both channels of the select are ready either case may be taken. *)
Definition step (interval : Z) (e : event) (s : state) : option state :=
  match e with
  | Advance d =>
      if (0 <=? d)%Z then
        Some {| now := now s + d; at_pc := at_pc s; wake_at := wake_at s;
                next_tick := next_tick s; ticker_C := ticker_C s;
                ticker_stopped := ticker_stopped s;
                stopChan_closed := stopChan_closed s; log := log s |}
      else None
  | Tick =>
      if negb (ticker_stopped s) && (next_tick s <=? now s)%Z then
        Some {| now := now s; at_pc := at_pc s; wake_at := wake_at s;
                next_tick := next_tick s + interval; ticker_C := true;
                ticker_stopped := ticker_stopped s;
                stopChan_closed := stopChan_closed s; log := log s |}
      else None
  | Stop =>
      if stopChan_closed s then None (* close of a closed channel *)
      else
        Some {| now := now s; at_pc := at_pc s; wake_at := wake_at s;
                next_tick := next_tick s; ticker_C := ticker_C s;
                ticker_stopped := ticker_stopped s;
                stopChan_closed := true;
                log := log s ++ [(now s, StopSignal)] |}
  | WakeUp =>
      match at_pc s with
      | Sleeping =>
          if (wake_at s <=? now s)%Z
          then Some (set_pc Fetching [CycleStart] s)
          else None
      | _ => None
      end
  | FetchDone =>
      match at_pc s with
      | Fetching => Some (set_pc Selecting [CycleEnd] s)
      | _ => None
      end
  | RecvTick =>
      match at_pc s with
      | Selecting =>
          if ticker_C s then
            Some {| now := now s; at_pc := Fetching; wake_at := wake_at s;
                    next_tick := next_tick s; ticker_C := false;
                    ticker_stopped := ticker_stopped s;
                    stopChan_closed := stopChan_closed s;
                    log := log s ++ [(now s, CycleStart)] |}
          else None
      | _ => None
      end
  | RecvStop =>
      match at_pc s with
      | Selecting =>
          if stopChan_closed s then
            Some {| now := now s; at_pc := Returned; wake_at := wake_at s;
                    next_tick := next_tick s; ticker_C := ticker_C s;
                    ticker_stopped := true;
                    stopChan_closed := stopChan_closed s; log := log s |}
          else None
      | _ => None
      end
  end.

Fixpoint run (interval : Z) (es : list event) (s : state) : option state :=
  match es with
  | [] => Some s
  | e :: es' =>
      match step interval e s with
      | Some s' => run interval es' s'
      | None => None
      end
  end.

(** The cycles that start after the stop signal, in a log. *)
Fixpoint starts_after_stop (seen_stop : bool) (l : list (Z * observation))
  : list Z :=
  match l with
  | [] => []
  | (t, StopSignal) :: l' => starts_after_stop true l'
  | (t, CycleStart) :: l' =>
      if seen_stop then t :: starts_after_stop seen_stop l'
      else starts_after_stop seen_stop l'
  | (t, CycleEnd) :: l' => starts_after_stop seen_stop l'
  end.

(** The goroutine is in [fetchPapers]. *)
Definition in_cycle (s : state) : bool :=
  match at_pc s with
  | Fetching => true
  | _ => false
  end.

(** The times at which cycles start, in a log. *)
Definition cycle_starts (l : list (Z * observation)) : list Z :=
  omap (fun x => match x.2 with
                 | CycleStart => Some x.1
                 | _ => None
                 end) l.

(** Starts and ends of cycles alternate in a log, from a state in which a
    cycle is [running] or not; the result tells whether a cycle is running
    at the end, [None] that they do not alternate. *)
Fixpoint alternates (running : bool) (l : list (Z * observation))
  : option bool :=
  match l with
  | [] => Some running
  | (_, StopSignal) :: l' => alternates running l'
  | (_, CycleStart) :: l' => if running then None else alternates true l'
  | (_, CycleEnd) :: l' => if running then alternates false l' else None
  end.

End scheduler.

(** ** The specification's vocabulary *)
Module spec.
Import regexp.

Definition all_digits (l : list ascii) : Prop :=
  Forall (fun c => class_d c = true) l.

(** [<4 digits>.<4-5 digits>] *)
Definition is_arxiv_id (id : list ascii) : Prop :=
  ∃ a b, id = a ++ str "." ++ b ∧ length a = 4%nat ∧
         (length b = 4%nat ∨ length b = 5%nat) ∧
         all_digits a ∧ all_digits b.

(** [v<digits>] *)
Definition is_version (v : list ascii) : Prop :=
  ∃ n, v = str "v" ++ n ∧ n ≠ [] ∧ all_digits n.

Definition no_leading_digit (t : list ascii) : Prop :=
  match t with
  | [] => True
  | c :: _ => class_d c = false
  end.

Definition contains_id_pattern (s : list ascii) : Prop :=
  ∃ pre id post, s = pre ++ id ++ post ∧ is_arxiv_id id.

(** The string ends with the identifier [id], optionally followed by a
    version suffix. *)
Definition ends_with_id (s id : list ascii) : Prop :=
  ∃ pre ver, s = pre ++ id ++ ver ∧ is_arxiv_id id ∧
             (ver = [] ∨ is_version ver).

(** The captures of a match of [arxivIDRegex] at offset [pos]: the match
    runs to the end of a text of [len] bytes, group 1 is the identifier
    of [n] bytes, group 2 the version suffix if there is one. *)
Definition id_caps (pos n len : nat) (versioned : bool) : Caps :=
  [ Some (pos, pos + len)%nat; Some (pos, pos + n)%nat;
    if versioned then Some (pos + n, pos + len)%nat else None ].

(** Replace every maximal run of [\s] characters by one space;
    [in_run] tells that the previous character was one of the run. *)
Fixpoint collapse (in_run : bool) (s : list ascii) : list ascii :=
  match s with
  | [] => []
  | c :: s' =>
      if class_s c then
        if in_run then collapse true s' else " "%char :: collapse true s'
      else c :: collapse false s'
  end.

(** Length of the run of [\s] characters that [s] starts with. *)
Fixpoint run_length (s : list ascii) : nat :=
  match s with
  | c :: s' => if class_s c then S (run_length s') else 0
  | [] => 0
  end.


Definition starts_with_space (s : list ascii) : bool :=
  match s with
  | c :: _ => class_s c
  | [] => false
  end.


(** The href of the last link that satisfies [role]; empty without. *)
Definition last_href (role : parser.Link -> bool) (links : list parser.Link)
  : list ascii :=
  match last (filter (fun l => role l = true) links) with
  | Some l => parser.Href l
  | None => []
  end.

(** The href of the first link that satisfies [role]; empty without. *)
Definition first_href (role : parser.Link -> bool)
    (links : list parser.Link) : list ascii :=
  match head (filter (fun l => role l = true) links) with
  | Some l => parser.Href l
  | None => []
  end.

Definition is_pdf (l : parser.Link) : bool :=
  bool_decide (parser.Link_Title l = str "pdf").

Definition is_alternate (l : parser.Link) : bool :=
  negb (is_pdf l) && bool_decide (parser.Rel l = str "alternate").

(** The terms of a group, each with its field prefix, OR-combined, in
    parentheses when there is more than one; [None] for an empty group. *)
Definition or_group (field : list ascii) (terms : list (list ascii))
  : option (list ascii) :=
  match map (fun t => field ++ t) terms with
  | [] => None
  | [t] => Some t
  | ts => Some (str "(" ++ strings.Join ts (str " OR ") ++ str ")")
  end.

Section Converted.
Variable time_Parse : list ascii -> list ascii -> option models.Time.

(** The papers of the entries that convert, in feed order. *)
Definition converted (entries : list parser.Entry) : list models.Paper :=
  omap (fun e => match parser.ToPaper time_Parse e with
                 | inl p => Some p
                 | inr _ => None
                 end) entries.

(** The entries that do not convert: index (from [i]) and error. *)
Fixpoint skipped (i : nat) (entries : list parser.Entry)
  : list (nat * parser.error) :=
  match entries with
  | [] => []
  | e :: rest =>
      match parser.ToPaper time_Parse e with
      | inl _ => skipped (S i) rest
      | inr err => (i, err) :: skipped (S i) rest
      end
  end.
End Converted.

Definition search_expression (categories keywords : list (list ascii))
  : list ascii :=
  match or_group (str "cat:") categories, or_group (str "all:") keywords with
  | None, None => str "all:*"
  | Some c, None => c
  | None, Some k => k
  | Some c, Some k => c ++ str " AND " ++ k
  end.

(** What every state of a run of the scheduler satisfies, [ticks] being
    the number of ticks that the ticker has fired: the warm-up deadline is
    ten seconds; the ticker fires at multiples of the interval; every
    cycle but the first has consumed a tick; the [n]-th cycle (from 0)
    started at ten seconds or later and not before [n] intervals. *)
Definition cadence (interval : Z) (ticks : nat) (s : scheduler.state)
  : Prop :=
  scheduler.wake_at s = (10 * scheduler.Second)%Z
  ∧ scheduler.next_tick s = ((Z.of_nat ticks + 1) * interval)%Z
  ∧ (Z.of_nat ticks * interval ≤ scheduler.now s)%Z
  ∧ (0 ≤ scheduler.now s)%Z
  ∧ (scheduler.at_pc s = scheduler.Sleeping ↔
     scheduler.cycle_starts (scheduler.log s) = [])
  ∧ (scheduler.at_pc s ≠ scheduler.Sleeping →
     (10 * scheduler.Second ≤ scheduler.now s)%Z)
  ∧ (pred (length (scheduler.cycle_starts (scheduler.log s)))
     + (if scheduler.ticker_C s then 1 else 0) ≤ ticks)%nat
  ∧ (∀ n t, scheduler.cycle_starts (scheduler.log s) !! n = Some t →
            (10 * scheduler.Second ≤ t)%Z ∧ (Z.of_nat n * interval ≤ t)%Z
            ∧ (t ≤ scheduler.now s)%Z).

(** A visible ASCII character: from [!] to [~]. *)
Definition visible (c : ascii) : bool :=
  (33 <=? nat_of_ascii c)%nat && (nat_of_ascii c <=? 126)%nat.

End spec.

(** ** Data of the repository's tests (parser_test.go) *)
Module testdata.
Import parser.

(** The values of [time.Parse] on the time stamps that parser_test.go
    uses (seconds from the zero time); any other input is refused.  It
    stands for [time.Parse] in the examples only. *)
Definition time_Parse (layout value : list ascii) : option models.Time :=
  if decide (layout = RFC3339) then
    if decide (value = str "2023-01-25T12:00:00Z") then Some 63810244800%Z
    else if decide (value = str "2023-01-26T12:00:00Z")
         then Some 63810331200%Z
    else None
  else None.

Definition link (href rel title : string) : Link :=
  {| Href := str href; Rel := str rel; Link_Type := [];
     Link_Title := str title |}.

(** The second entry of [TestFeedToPapers]. *)
Definition entry2 : Entry :=
  {| ID := str "http://arxiv.org/abs/2301.67890v1";
     Title := str "Paper 2";
     Summary := str "Abstract 2";
     Published := str "2023-01-26T12:00:00Z";
     Updated := str "2023-01-26T12:00:00Z";
     Authors := [ {| Name := str "Author 2" |} ];
     Links := [ link "http://arxiv.org/abs/2301.67890v1" "alternate" "";
                link "http://arxiv.org/pdf/2301.67890v1" "" "pdf" ];
     Categories := [ {| Term := str "cs.LG"; Scheme := [] |} ] |}.

(** The first entry of [TestFeedToPapers], with a time stamp that no
    layout accepts. *)
Definition entry1_bad_time : Entry :=
  {| ID := str "http://arxiv.org/abs/2301.12345v1";
     Title := str "Paper 1";
     Summary := str "Abstract 1";
     Published := str "yesterday";
     Updated := str "2023-01-25T12:00:00Z";
     Authors := [ {| Name := str "Author 1" |} ];
     Links := [ link "http://arxiv.org/abs/2301.12345v1" "alternate" "";
                link "http://arxiv.org/pdf/2301.12345v1" "" "pdf" ];
     Categories := [ {| Term := str "cs.AI"; Scheme := [] |} ] |}.

(** An entry with two links of each role. *)
Definition entry_two_of_each : Entry :=
  {| ID := str "http://arxiv.org/abs/2301.12345v1";
     Title := str "Paper 1";
     Summary := str "Abstract 1";
     Published := str "2023-01-25T12:00:00Z";
     Updated := str "2023-01-25T12:00:00Z";
     Authors := [ {| Name := str "Author 1" |} ];
     Links := [ link "http://arxiv.org/abs/2301.12345v1" "alternate" "";
                link "http://arxiv.org/pdf/2301.12345v1" "" "pdf";
                link "http://arxiv.org/abs/2301.12345v2" "alternate" "";
                link "http://arxiv.org/pdf/2301.12345v2" "" "pdf" ];
     Categories := [ {| Term := str "cs.AI"; Scheme := [] |} ] |}.

(** An entry without links. *)
Definition entry_no_links : Entry :=
  {| ID := str "http://arxiv.org/abs/2301.12345v1";
     Title := str "Paper 1";
     Summary := str "Abstract 1";
     Published := str "2023-01-25T12:00:00Z";
     Updated := str "2023-01-25T12:00:00Z";
     Authors := [ {| Name := str "Author 1" |} ];
     Links := [];
     Categories := [ {| Term := str "cs.AI"; Scheme := [] |} ] |}.

Definition feed (entries : list Entry) : Feed :=
  {| Feed_Title := []; Feed_ID := []; Feed_Updated := [];
     Entries := entries |}.

(** The paper of [TestUpsertPaper], and the same paper with another
    title. *)
Definition paper (title : string) : models.Paper :=
  {| models.ID := str "2301.12345";
     models.Title := str title;
     models.Abstract := str "Test abstract";
     models.Authors := str "John Doe, Jane Smith";
     models.Categories := str "cs.AI, cs.LG";
     models.PublishedAt := 63810244800%Z;
     models.UpdatedAt := 63810244800%Z;
     models.PDFUrl := str "http://arxiv.org/pdf/2301.12345";
     models.ArxivUrl := str "http://arxiv.org/abs/2301.12345";
     models.CreatedAt := 0%Z;
     models.InLibrary := false;
     models.IsRead := false;
     models.Tags := [] |}.

(** A store in which the paper is saved to the library, marked as read
    and tagged. *)
Definition curated : db.DB :=
  db.TagPaper (str "2301.12345") 1%Z
    (db.ToggleRead (str "2301.12345")
       (db.SaveToLibrary 150%Z (str "2301.12345")
          (db.UpsertPaper 100%Z (paper "Test Paper") db.empty))).

(** The second entry of [TestFeedToPapers] in a second version. *)
Definition entry2_v2 : Entry :=
  {| ID := str "http://arxiv.org/abs/2301.67890v2";
     Title := str "Paper 2, revised";
     Summary := str "Abstract 2";
     Published := str "2023-01-26T12:00:00Z";
     Updated := str "2023-01-26T12:00:00Z";
     Authors := [ {| Name := str "Author 2" |} ];
     Links := [ link "http://arxiv.org/abs/2301.67890v2" "alternate" "";
                link "http://arxiv.org/pdf/2301.67890v2" "" "pdf" ];
     Categories := [ {| Term := str "cs.LG"; Scheme := [] |} ] |}.

(** A store with the one tag of [TestTagOperations]. *)
Definition tagged : db.DB :=
  (db.CreateTag (str "machine-learning") db.empty).2.

(** A machine without configuration file, and an environment that sets
    host and port. *)
Definition os_ReadFile (path : list ascii) : config.read_result :=
  config.ReadNotExist.

Definition yaml_Unmarshal (data : list ascii) (cfg : config.Config)
  : option config.Config := Some cfg.

Definition os_Getenv (key : list ascii) : list ascii :=
  if decide (key = str "SERVER_HOST") then str "localhost"
  else if decide (key = str "SERVER_PORT") then str "9090"
  else [].

Definition Sscanf_d (s : list ascii) : option Z :=
  if decide (s = str "9090") then Some 9090%Z else None.

(** Times of [CURRENT_TIMESTAMP] for a batch. *)
Definition clock (i : nat) : models.Time := (200 + Z.of_nat i)%Z.

(** A run of the scheduler with an interval of one hour: the first cycle,
    a second one at the first tick, then the stop. *)
Definition hour : Z := (3600 * scheduler.Second)%Z.

Definition events : list scheduler.event :=
  [ scheduler.Advance (10 * scheduler.Second); scheduler.WakeUp;
    scheduler.Advance (5 * scheduler.Second); scheduler.FetchDone;
    scheduler.Advance (3585 * scheduler.Second); scheduler.Tick;
    scheduler.RecvTick; scheduler.Advance (4 * scheduler.Second);
    scheduler.FetchDone; scheduler.Stop; scheduler.RecvStop ].

Definition stopped : scheduler.state :=
  {| scheduler.now := 3604 * scheduler.Second;
     scheduler.at_pc := scheduler.Returned;
     scheduler.wake_at := 10 * scheduler.Second;
     scheduler.next_tick := 7200 * scheduler.Second;
     scheduler.ticker_C := false;
     scheduler.ticker_stopped := true;
     scheduler.stopChan_closed := true;
     scheduler.log :=
       [ (10 * scheduler.Second, scheduler.CycleStart);
         (15 * scheduler.Second, scheduler.CycleEnd);
         (3600 * scheduler.Second, scheduler.CycleStart);
         (3604 * scheduler.Second, scheduler.CycleEnd);
         (3604 * scheduler.Second, scheduler.StopSignal) ]%Z |}%Z.

Definition later : scheduler.state :=
  {| scheduler.now := 7204 * scheduler.Second;
     scheduler.at_pc := scheduler.Returned;
     scheduler.wake_at := 10 * scheduler.Second;
     scheduler.next_tick := 7200 * scheduler.Second;
     scheduler.ticker_C := false;
     scheduler.ticker_stopped := true;
     scheduler.stopChan_closed := true;
     scheduler.log := scheduler.log stopped |}%Z.

(** The forms of [TestHandleAddTag], with blanks around the name, and of
    the request that removes the tag again. *)
Definition add_tag_form (key : list ascii) : list ascii :=
  if decide (key = str "paper_id") then str "2301.12345"
  else if decide (key = str "tag_name") then str "  machine-learning "
  else [].

Definition remove_tag_form (key : list ascii) : list ascii :=
  if decide (key = str "paper_id") then str "2301.12345"
  else if decide (key = str "tag_id") then str "1"
  else [].

Definition Atoi (s : list ascii) : option Z :=
  if decide (s = str "1") then Some 1%Z else None.

End testdata.

(** * Properties *)

(** ** Fetch client *)
Section ClientFacts.
Import client.

(** C6. The search expression OR-combines the category terms (in
    parentheses only when there is more than one), likewise the keyword
    terms, AND-combines the two groups when both are non-empty, and is
    the match-everything expression [all:*] when both are empty. *)
Theorem buildSearchQuery_expression (categories keywords : list (list ascii)) :
  buildSearchQuery categories keywords
  = spec.search_expression categories keywords.
Proof.
  unfold buildSearchQuery, spec.search_expression, spec.or_group.
  destruct categories as [|c1 [|c2 cs]], keywords as [|k1 [|k2 ks]];
    reflexivity.
Qed.

Variable transport : Request -> Response + list ascii.
Variable Values_Encode : list (list ascii * list ascii) -> list ascii.
Variable xml_Decode : list ascii -> option parser.Feed.

(** C7. For the empty identifier list [FetchByIDs] returns an empty feed
    and no error and leaves the world as it is (no request is sent, no
    delay is slept); for a non-empty list it sends exactly one request,
    whose query is the [id_list] of the comma-joined identifiers. *)
Theorem FetchByIDs_requests (c : Client) :
  (∀ w, FetchByIDs transport Values_Encode xml_Decode c [] w
        = (inl emptyFeed, w)
        ∧ parser.Entries emptyFeed = []) ∧
  (∀ id ids w,
      sent (snd (FetchByIDs transport Values_Encode xml_Decode c
                   (id :: ids) w))
      = sent w ++ [id_list_request Values_Encode (id :: ids)]).
Proof.
  split.
  - intros w. split; reflexivity.
  - intros id ids w. unfold FetchByIDs.
    change (length (id :: ids) =? 0)%nat with false. cbv iota.
    fold (id_list_request Values_Encode (id :: ids)).
    unfold mbind, IO_bind, Do.
    destruct (transport (id_list_request Values_Encode (id :: ids)))
      as [resp|e];
      [|reflexivity].
    destruct (negb (StatusCode resp =? 200)%Z); [reflexivity|].
    destruct (parser.ParseFeed xml_Decode (Body resp)); reflexivity.
Qed.

End ClientFacts.

(** ** Upsert store *)
Section StoreFacts.
Import db.

(** C1. [UpsertPaper] leaves under key [paper.ID] a row that carries every
    paper-owned field of [paper]; its [created_at] is the time of the
    statement when the key was absent and the old [created_at] when it was
    present.  No other row of [papers] changes, tables [library], [tags]
    and [paper_tags] do not change, and upserting the same paper again (at
    any later time) changes nothing. *)
Theorem UpsertPaper_contract (now : models.Time) (paper : models.Paper)
    (d : DB) :
  let d' := UpsertPaper now paper d in
  (∃ row, papers d' !! models.ID paper = Some row
          ∧ title row = models.Title paper
          ∧ abstract row = models.Abstract paper
          ∧ authors row = models.Authors paper
          ∧ categories row = models.Categories paper
          ∧ published_at row = models.PublishedAt paper
          ∧ updated_at row = models.UpdatedAt paper
          ∧ pdf_url row = models.PDFUrl paper
          ∧ arxiv_url row = models.ArxivUrl paper
          ∧ created_at row
            = match papers d !! models.ID paper with
              | Some old => created_at old
              | None => now
              end)
  ∧ (∀ id, id ≠ models.ID paper → papers d' !! id = papers d !! id)
  ∧ library d' = library d
  ∧ tags d' = tags d
  ∧ paper_tags d' = paper_tags d
  ∧ (∀ later, UpsertPaper later paper d' = d').
Proof.
  cbv zeta. repeat split.
  - eexists. split; [apply lookup_insert_eq|]. repeat split.
  - intros id Hid. unfold UpsertPaper; simpl.
    by rewrite lookup_insert_ne.
  - intros later. unfold UpsertPaper; simpl.
    rewrite lookup_insert_eq, insert_insert_eq. reflexivity.
Qed.

End StoreFacts.

(** ** Feed parser: entries, links and time stamps *)
Section ParserFacts.
Import parser.

Variable time_Parse : list ascii -> list ascii -> option models.Time.

Local Abbreviation parseTime := (parser.parseTime time_Parse).
Local Abbreviation ToPaper := (parser.ToPaper time_Parse).
Local Abbreviation ToPapers := (parser.ToPapers time_Parse).
Local Abbreviation converted := (spec.converted time_Parse).
Local Abbreviation skipped := (spec.skipped time_Parse).



(** An entry whose published or updated time stamp is refused by every
    layout does not convert. *)
Lemma ToPaper_bad_time e :
  (∃ err, parseTime (Published e) = inr err)
  ∨ (∃ err, parseTime (Updated e) = inr err) →
  ∃ err, ToPaper e = inr err.
Proof.
  intros H. unfold parser.ToPaper.
  destruct (decide (extractArxivID (ID e) = [])); [eauto|].
  destruct (parseTime (Published e)) as [tp|ep] eqn:Hp; [|eauto].
  destruct (parseTime (Updated e)) as [tu|eu] eqn:Hu; [|eauto].
  destruct H as [[? ?]|[? ?]]; congruence.
Qed.

Lemma ToPapers_range_spec entries : ∀ i papers out,
  ToPapers_range time_Parse i entries papers out
  = (papers ++ converted entries, out ++ skipped i entries).
Proof.
  induction entries as [|e entries IH]; intros i papers out; simpl.
  - by rewrite !app_nil_r.
  - unfold spec.converted. simpl. fold (converted entries).
    destruct (ToPaper e) as [p|err]; rewrite IH; simpl.
    + by rewrite <- app_assoc.
    + by rewrite <- app_assoc.
Qed.

Lemma ToPapers_spec f :
  ToPapers f = (converted (Entries f), None, skipped 0 (Entries f)).
Proof.
  unfold parser.ToPapers. by rewrite ToPapers_range_spec.
Qed.



(** An entry fails to convert exactly when its identifier is malformed or
    one of its two time stamps is refused by every layout. *)
Lemma ToPaper_fails_iff e :
  (∃ err, ToPaper e = inr err) ↔
  extractArxivID (ID e) = []
  ∨ (∃ err, parseTime (Published e) = inr err)
  ∨ (∃ err, parseTime (Updated e) = inr err).
Proof.
  split.
  - unfold parser.ToPaper. intros [err Herr].
    destruct (decide (extractArxivID (ID e) = [])); [by left|].
    destruct (parseTime (Published e)) as [tp|ep]; [|right; left; eauto].
    destruct (parseTime (Updated e)) as [tu|eu]; [|right; right; eauto].
    discriminate.
  - intros [Hid|Htime]; [|by apply ToPaper_bad_time].
    unfold parser.ToPaper. rewrite decide_True by done. eauto.
Qed.

(** C3. [ToPapers] never fails: it returns the papers of exactly the
    entries that convert, in feed order, and prints one warning (index and
    error) for each entry that does not; an entry does not convert exactly
    when its identifier is malformed or a time stamp is refused by every
    layout.  In particular a feed of two entries, the first with a time
    stamp that no layout accepts and the second one convertible, gives
    exactly one paper, the second one's. *)
Theorem ToPapers_skips_failures :
  (∀ f, ToPapers f = (converted (Entries f), None, skipped 0 (Entries f)))
  ∧ (∀ e, (∃ err, ToPaper e = inr err) ↔
          extractArxivID (ID e) = []
          ∨ (∃ err, parseTime (Published e) = inr err)
          ∨ (∃ err, parseTime (Updated e) = inr err))
  ∧ (∀ f e1 e2 p2,
       Entries f = [e1; e2] →
       (∃ err, parseTime (Published e1) = inr err)
       ∨ (∃ err, parseTime (Updated e1) = inr err) →
       ToPaper e2 = inl p2 →
       ∃ err1, ToPapers f = ([p2], None, [(0%nat, err1)])).
Proof.
  split; [apply ToPapers_spec|]. split; [apply ToPaper_fails_iff|].
  intros f e1 e2 p2 Hf Hbad Hok.
  destruct (ToPaper_bad_time e1 Hbad) as [err1 Herr1].
  exists err1. rewrite ToPapers_spec, Hf. unfold spec.converted. simpl.
  by rewrite Herr1, Hok.
Qed.

Lemma scan_links_snoc links l :
  scan_links (links ++ [l]) = link_step (scan_links links) l.
Proof. unfold scan_links. by rewrite fold_left_app. Qed.

Lemma last_href_snoc role links l :
  spec.last_href role (links ++ [l])
  = if role l then Href l else spec.last_href role links.
Proof.
  unfold spec.last_href. rewrite filter_app, filter_cons, filter_nil.
  destruct (role l) eqn:Hl.
  - rewrite decide_True by done. by rewrite last_snoc.
  - rewrite decide_False by (by rewrite not_true_iff_false).
    by rewrite app_nil_r.
Qed.

Lemma scan_links_last links :
  scan_links links
  = (spec.last_href spec.is_pdf links,
     spec.last_href spec.is_alternate links).
Proof.
  induction links as [|l links IH] using rev_ind; [done|].
  rewrite scan_links_snoc, !last_href_snoc, IH.
  unfold link_step, spec.is_alternate, spec.is_pdf.
  destruct (decide (Link_Title l = str "pdf")) as [Hp|Hp].
  - by rewrite (bool_decide_eq_true_2 _ Hp).
  - rewrite (bool_decide_eq_false_2 _ Hp).
    destruct (decide (Rel l = str "alternate")) as [Ha|Ha].
    + by rewrite (bool_decide_eq_true_2 _ Ha).
    + by rewrite (bool_decide_eq_false_2 _ Ha).
Qed.

Lemma last_href_none role links :
  Forall (fun l => role l = false) links → spec.last_href role links = [].
Proof.
  intros Hall. unfold spec.last_href.
  replace (filter (fun l => role l = true) links) with (@nil Link); [done|].
  symmetry. induction Hall as [|l links Hl _ IH]; [done|].
  rewrite filter_cons, decide_False; [done|]. by rewrite Hl.
Qed.

(** Neither the links of an entry nor their absence decide whether the
    entry converts. *)
Lemma ToPaper_links e p links :
  ToPaper e = inl p →
  ∃ p', ToPaper {| ID := ID e; Title := Title e; Summary := Summary e;
                   Published := Published e; Updated := Updated e;
                   Authors := Authors e; Links := links;
                   Categories := Categories e |} = inl p'.
Proof.
  unfold parser.ToPaper; simpl.
  destruct (decide (extractArxivID (ID e) = [])); [discriminate|].
  destruct (parseTime (Published e)); [|discriminate].
  destruct (parseTime (Updated e)); [|discriminate]. eauto.
Qed.

Lemma ToPaper_urls e p :
  ToPaper e = inl p →
  models.PDFUrl p = spec.last_href spec.is_pdf (Links e)
  ∧ models.ArxivUrl p = spec.last_href spec.is_alternate (Links e).
Proof.
  unfold parser.ToPaper.
  destruct (decide (extractArxivID (ID e) = [])); [discriminate|].
  destruct (parseTime (Published e)); [|discriminate].
  destruct (parseTime (Updated e)); [|discriminate].
  intros [= <-]; simpl. by rewrite scan_links_last.
Qed.

(** C4 (as the code has it).  The links are scanned once, and every link
    with the role overwrites the url found before: [pdfUrl] is the href
    of the LAST link whose title is [pdf], and [arxivUrl] the href of the
    last link that is not titled [pdf] and whose rel is [alternate].  The
    links do not decide whether the entry converts; a role that no link
    has leaves its url empty. *)
Theorem ToPaper_last_link_wins (e : Entry) (p : models.Paper) :
  ToPaper e = inl p →
  models.PDFUrl p = spec.last_href spec.is_pdf (Links e)
  ∧ models.ArxivUrl p = spec.last_href spec.is_alternate (Links e)
  ∧ (Forall (fun l => spec.is_pdf l = false) (Links e) →
     models.PDFUrl p = [])
  ∧ (Forall (fun l => spec.is_alternate l = false) (Links e) →
     models.ArxivUrl p = [])
  ∧ (∀ links, ∃ p',
       ToPaper {| ID := ID e; Title := Title e; Summary := Summary e;
                  Published := Published e; Updated := Updated e;
                  Authors := Authors e; Links := links;
                  Categories := Categories e |} = inl p').
Proof.
  intros Hp. destruct (ToPaper_urls e p Hp) as [Hpdf Harx].
  repeat split; [done..| | |].
  - intros Hnone. by rewrite Hpdf, last_href_none.
  - intros Hnone. by rewrite Harx, last_href_none.
  - intros links. by eapply ToPaper_links.
Qed.


End ParserFacts.

(** ** The matcher *)
Section RegexpFacts.
Import regexp.

(** What a successful greedy repetition has consumed. *)
Lemma rep_inv p min max k s : ∀ n pos r,
  rep p min max k n s pos = Some r →
  ∃ j, (j ≤ length s)%nat
       ∧ Forall (fun c => p c = true) (take j s)
       ∧ (min ≤ n + j)%nat
       ∧ (∀ m, max = Some m → (n ≤ m)%nat → (n + j ≤ m)%nat)
       ∧ k (drop j s) (pos + j)%nat = Some r.
Proof.
  induction s as [|c s IH]; intros n pos r; simpl.
  - destruct (min <=? n)%nat eqn:Hmin; [|discriminate].
    apply Nat.leb_le in Hmin. intros Hk. exists 0%nat.
    rewrite !Nat.add_0_r. split_and!; try done; intros; lia.
  - assert (Hstop : (if (min <=? n)%nat then k (c :: s) pos else None)
                    = Some r →
            ∃ j, (j ≤ S (length s))%nat
                 ∧ Forall (fun c => p c = true) (take j (c :: s))
                 ∧ (min ≤ n + j)%nat
                 ∧ (∀ m, max = Some m → (n ≤ m)%nat → (n + j ≤ m)%nat)
                 ∧ k (drop j (c :: s)) (pos + j)%nat = Some r).
    { destruct (min <=? n)%nat eqn:Hmin; [|discriminate].
      apply Nat.leb_le in Hmin. intros Hk. exists 0%nat.
      rewrite !Nat.add_0_r. split_and!; try done; intros; lia. }
    destruct (p c && below n max) eqn:Hc; [|done].
    apply andb_true_iff in Hc as [Hpc Hbelow].
    destruct (rep p min max k (S n) s (S pos)) as [r'|] eqn:Hrep; [|done].
    intros [= <-]. apply IH in Hrep as (j & Hj & Hall & Hmin & Hmax & Hk).
    exists (S j). simpl. split_and!.
    + lia.
    + by constructor.
    + lia.
    + intros m -> Hn. simpl in Hbelow. apply Nat.ltb_lt in Hbelow.
      specialize (Hmax m eq_refl). lia.
    + by replace (pos + S j)%nat with (S pos + j)%nat by lia.
Qed.

(** A repetition that takes as much as it can and then succeeds. *)
Lemma rep_greedy p min max k j : ∀ s n pos r,
  (j ≤ length s)%nat →
  Forall (fun c => p c = true) (take j s) →
  (min ≤ n + j)%nat →
  (∀ m, max = Some m → (n + j ≤ m)%nat) →
  match drop j s with
  | [] => True
  | c :: _ => p c = false ∨ max = Some (n + j)%nat
  end →
  k (drop j s) (pos + j)%nat = Some r →
  rep p min max k n s pos = Some r.
Proof.
  induction j as [|j IH]; intros s n pos r Hlen Hall Hmin Hmax Hend Hk.
  - rewrite Nat.add_0_r in *. rewrite drop_0 in *.
    assert ((min <=? n)%nat = true) as Hle by (apply Nat.leb_le; lia).
    destruct s as [|c s]; simpl; rewrite Hle; [done|].
    destruct Hend as [Hc| ->].
    + by rewrite Hc.
    + simpl. rewrite Nat.ltb_irrefl, andb_false_r. done.
  - destruct s as [|c s]; simpl in *; [lia|].
    apply Forall_cons in Hall as [Hc Hall]. rewrite Hc. simpl.
    assert (below n max = true) as ->.
    { destruct max as [m|]; [|done]. simpl. apply Nat.ltb_lt.
      specialize (Hmax m eq_refl). lia. }
    rewrite (IH s (S n) (S pos) r); [done|lia|done|lia| | |].
    + intros m Hm. specialize (Hmax m Hm). lia.
    + by replace (S n + j)%nat with (n + S j)%nat by lia.
    + by replace (S pos + j)%nat with (pos + S j)%nat by lia.
Qed.

(** The leftmost match is a match at some offset. *)
Lemma find_from_inv re s : ∀ pos caps,
  find_from re s pos = Some caps →
  ∃ i, (i ≤ length s)%nat ∧ match_at re (drop i s) (pos + i)%nat = Some caps.
Proof.
  induction s as [|c s IH]; intros pos caps; simpl.
  - destruct (match_at re [] pos) eqn:Hm; [|discriminate].
    intros [= <-]. exists 0%nat. by rewrite Nat.add_0_r.
  - destruct (match_at re (c :: s) pos) eqn:Hm.
    + intros [= <-]. exists 0%nat. rewrite Nat.add_0_r. split; [lia|done].
    + intros (i & Hi & Hmatch)%IH. exists (S i). split; [lia|].
      by replace (pos + S i)%nat with (S pos + i)%nat by lia.
Qed.

(** Where there is a match there is a leftmost one. *)
Lemma find_from_is_Some re i : ∀ s pos,
  (i ≤ length s)%nat →
  is_Some (match_at re (drop i s) (pos + i)%nat) →
  is_Some (find_from re s pos).
Proof.
  induction i as [|i IH]; intros s pos Hlen Hm.
  - rewrite Nat.add_0_r, drop_0 in Hm. destruct Hm as [c Hm].
    destruct s; simpl; rewrite Hm; eauto.
  - destruct s as [|c s]; simpl in *; [lia|].
    destruct (match_at re (c :: s) pos); [eauto|].
    apply IH; [lia|].
    by replace (S pos + i)%nat with (pos + S i)%nat by lia.
Qed.

Lemma class_d_dot : class_d "." = false.
Proof. reflexivity. Qed.

Lemma class_d_v : class_d "v" = false.
Proof. reflexivity. Qed.

Lemma lit_true a c : lit a c = true → c = a.
Proof. unfold lit. intros H%Ascii.eqb_eq. done. Qed.

Lemma lit_refl a : lit a a = true.
Proof. apply Ascii.eqb_refl. Qed.

Lemma match_at_arxivID_sound s pos caps :
  match_at parser.arxivIDRegex s pos = Some caps →
  ∃ id ver, s = id ++ ver ∧ spec.is_arxiv_id id
            ∧ (ver = [] ∨ spec.is_version ver)
            ∧ caps = spec.id_caps pos (length id) (length s)
                       (bool_decide (ver ≠ [])).
Proof.
  unfold match_at, parser.arxivIDRegex. cbn.
  intros H.
  apply rep_inv in H as (j1 & Hj1 & Hd1 & Hmin1 & Hmax1 & H).
  specialize (Hmax1 4%nat eq_refl ltac:(lia)).
  assert (j1 = 4%nat) as -> by lia.
  destruct (drop 4 s) as [|c s1] eqn:Hs1; [done|].
  destruct (lit "." c) eqn:Hc; [|done]. apply lit_true in Hc as ->.
  apply rep_inv in H as (j2 & Hj2 & Hd2 & Hmin2 & Hmax2 & H).
  specialize (Hmax2 5%nat eq_refl ltac:(lia)).
  assert (s = take 4 s ++ "."%char :: take j2 s1 ++ drop j2 s1) as Hs.
  { rewrite <- (take_drop 4 s) at 1. by rewrite Hs1, take_drop. }
  assert (length (take 4 s) = 4%nat) as Hla by (rewrite length_take; lia).
  assert (length (take j2 s1) = j2) as Hlb by (rewrite length_take; lia).
  remember (take 4 s) as a eqn:Ha. remember (take j2 s1) as b eqn:Hb.
  clear Ha Hb Hs1 Hj1 Hj2.
  assert (spec.is_arxiv_id (a ++ "."%char :: b)) as Hid.
  { exists a, b. split_and!; try done. lia. }
  destruct (drop j2 s1) as [|c2 s2] eqn:Hs2.
  - injection H as <-. exists (a ++ "."%char :: b), [].
    split_and!; [by rewrite <- app_assoc|done|by left|].
    rewrite bool_decide_eq_false_2 by (intros Hne; by apply Hne).
    subst s. unfold spec.id_caps.
    rewrite !length_app, Hla. simpl. rewrite !length_app, Hlb. simpl.
    repeat f_equal; lia.
  - destruct (lit "v" c2) eqn:Hv; [|done]. apply lit_true in Hv as ->.
    match type of H with
    | match ?m with _ => _ end = _ => destruct m as [caps'|] eqn:Hrep
    end; [|done].
    injection H as <-.
    apply rep_inv in Hrep as (j3 & Hj3 & Hd3 & Hmin3 & _ & Hrep).
    destruct (drop j3 s2) as [|c3 s3] eqn:Hs3; [|done].
    injection Hrep as <-.
    assert (take j3 s2 = s2) as Hall.
    { rewrite <- (take_drop j3 s2) at 2. by rewrite Hs3, app_nil_r. }
    rewrite Hall in Hd3.
    assert (length s2 = j3) as Hl3.
    { rewrite <- Hall at 1. rewrite length_take. lia. }
    exists (a ++ "."%char :: b), ("v"%char :: s2).
    split_and!; [by rewrite <- app_assoc|done| |].
    + right. exists s2. split_and!; [done| |done].
      intros ->. simpl in Hl3. lia.
    + rewrite bool_decide_eq_true_2 by done.
      subst s. unfold spec.id_caps.
      rewrite !length_app, Hla. simpl. rewrite !length_app, Hlb. simpl.
      rewrite Hl3. repeat f_equal; lia.
Qed.

Lemma match_at_arxivID_complete id ver pos :
  spec.is_arxiv_id id →
  ver = [] ∨ spec.is_version ver →
  match_at parser.arxivIDRegex (id ++ ver) pos
  = Some (spec.id_caps pos (length id) (length (id ++ ver))
            (bool_decide (ver ≠ []))).
Proof.
  intros (a & b & -> & Hla & Hlb & Hda & Hdb) Hver.
  unfold match_at, parser.arxivIDRegex. cbn.
  rewrite <- !app_assoc. simpl.
  apply (rep_greedy _ _ _ _ 4).
  { rewrite length_app. lia. }
  { by rewrite take_app_length'. }
  { lia. }
  { intros m [= <-]. lia. }
  { rewrite drop_app_length' by done. by right. }
  rewrite drop_app_length' by done. rewrite ?lit_refl.
  apply (rep_greedy _ _ _ _ (length b)).
  { rewrite length_app. lia. }
  { by rewrite take_app_length. }
  { lia. }
  { intros m [= <-]. lia. }
  { rewrite drop_app_length. destruct Hver as [->|(n & -> & _)]; [done|].
    left. reflexivity. }
  rewrite drop_app_length.
  destruct Hver as [->|(n & -> & Hn & Hdn)].
  - rewrite bool_decide_eq_false_2 by (intros Hne; by apply Hne).
    unfold spec.id_caps. rewrite !length_app. simpl.
    rewrite length_app. simpl. repeat f_equal; lia.
  - rewrite bool_decide_eq_true_2 by done. simpl. rewrite ?lit_refl.
    rewrite (rep_greedy class_d 1 None _ (length n) n 0
               (S (S (pos + 4 + length b)))
               (spec.id_caps pos (length (a ++ "."%char :: b))
                  (length (a ++ "."%char :: b ++ "v"%char :: n)) true)).
    + done.
    + done.
    + by rewrite firstn_all.
    + destruct n; [done|simpl; lia].
    + done.
    + by rewrite drop_all.
    + rewrite drop_all. unfold spec.id_caps. rewrite !length_app. simpl.
      rewrite !length_app. simpl. repeat f_equal; lia.
Qed.

Lemma split_last_unique (c : ascii) x : ∀ x' y y',
  c ∉ y → c ∉ y' → x ++ c :: y = x' ++ c :: y' → x = x' ∧ y = y'.
Proof.
  induction x as [|d x IH]; intros [|d' x'] y y' Hy Hy'; simpl.
  - by intros [= ->].
  - intros [= Hd Hyy]. exfalso. apply Hy. rewrite Hyy.
    apply elem_of_app. right. apply list_elem_of_here.
  - intros [= Hd Hyy]. exfalso. apply Hy'. rewrite <- Hyy.
    apply elem_of_app. right. apply list_elem_of_here.
  - intros [= -> Heq]. destruct (IH x' y y' Hy Hy' Heq) as [Hx Hyy].
    by subst.
Qed.

Lemma digit_prefix_unique b : ∀ b' t t',
  spec.all_digits b → spec.all_digits b' →
  spec.no_leading_digit t → spec.no_leading_digit t' →
  b ++ t = b' ++ t' → b = b'.
Proof.
  unfold spec.all_digits.
  induction b as [|c b IH]; intros [|c' b'] t t' Hb Hb' Ht Ht'; simpl.
  - done.
  - intros ->. apply Forall_cons in Hb' as [Hc _]. simpl in Ht.
    by rewrite Hc in Ht.
  - intros <-. apply Forall_cons in Hb as [Hc _]. simpl in Ht'.
    by rewrite Hc in Ht'.
  - intros [= -> Heq]. apply Forall_cons in Hb as [_ Hb].
    apply Forall_cons in Hb' as [_ Hb']. f_equal. by apply (IH b' t t').
Qed.

Lemma version_no_leading_digit ver :
  ver = [] ∨ spec.is_version ver → spec.no_leading_digit ver.
Proof. intros [->|(n & -> & _)]; [done|reflexivity]. Qed.

Lemma digits_no_dot l : spec.all_digits l → "."%char ∉ l.
Proof.
  intros Hl Hin. unfold spec.all_digits in Hl. rewrite Forall_forall in Hl.
  apply Hl in Hin. by rewrite class_d_dot in Hin.
Qed.

Lemma version_no_dot ver :
  ver = [] ∨ spec.is_version ver → "."%char ∉ ver.
Proof.
  intros [->|(n & -> & _ & Hn)]; [apply not_elem_of_nil|].
  apply digits_no_dot in Hn. simpl.
  intros [?|?]%elem_of_cons; [discriminate|done].
Qed.

(** A string ends with at most one identifier. *)
Lemma ends_with_id_unique s id id' :
  spec.ends_with_id s id → spec.ends_with_id s id' → id = id'.
Proof.
  intros (pre & ver & Hs & (a & b & -> & Hla & _ & Hda & Hdb) & Hver).
  intros (pre' & ver' & Hs' & (a' & b' & -> & Hla' & _ & Hda' & Hdb') & Hver').
  simpl in *. rewrite Hs in Hs'. clear Hs.
  assert ((pre ++ a) ++ "."%char :: (b ++ ver)
          = (pre' ++ a') ++ "."%char :: (b' ++ ver')) as Heq.
  { revert Hs'. by assoc_right. }
  apply split_last_unique in Heq as [Hpa Hbv].
  - apply app_inj_2 in Hpa as [_ ->]; [|congruence].
    f_equal. f_equal.
    apply (digit_prefix_unique b b' ver ver');
      auto using version_no_leading_digit.
  - intros [Hin|Hin]%elem_of_app;
      [by apply (digits_no_dot b)|by apply (version_no_dot ver)].
  - intros [Hin|Hin]%elem_of_app;
      [by apply (digits_no_dot b')|by apply (version_no_dot ver')].
Qed.

Lemma extractArxivID_cases s :
  parser.extractArxivID s = []
  ∨ spec.ends_with_id s (parser.extractArxivID s).
Proof.
  unfold parser.extractArxivID, FindStringSubmatch.
  destruct (find_from parser.arxivIDRegex s 0) as [caps|] eqn:Hfind;
    [|by left].
  right. apply find_from_inv in Hfind as (i & Hi & Hm). simpl in Hm.
  apply match_at_arxivID_sound in Hm as (id & ver & Hs & Hid & Hver & ->).
  unfold spec.id_caps. simpl.
  replace (i + length id - i)%nat with (length id) by lia.
  rewrite Hs, take_app_length.
  exists (take i s), ver. split_and!; [|done..].
  by rewrite <- Hs, take_drop.
Qed.

Lemma is_arxiv_id_nonempty id : spec.is_arxiv_id id → id ≠ [].
Proof. intros (a & b & -> & Hla & _). by destruct a. Qed.

Lemma extractArxivID_complete s id :
  spec.ends_with_id s id → parser.extractArxivID s = id.
Proof.
  intros Hends. pose proof Hends as (pre & ver & -> & Hid & Hver).
  assert (is_Some (find_from parser.arxivIDRegex (pre ++ id ++ ver) 0))
    as [caps Hfind].
  { apply (find_from_is_Some _ (length pre)).
    - rewrite length_app. lia.
    - rewrite drop_app_length. by rewrite match_at_arxivID_complete. }
  destruct (extractArxivID_cases (pre ++ id ++ ver)) as [Hnil|Hends'].
  - exfalso. revert Hnil.
    unfold parser.extractArxivID, FindStringSubmatch. rewrite Hfind.
    apply find_from_inv in Hfind as (i & Hi & Hm). simpl in Hm.
    apply match_at_arxivID_sound in Hm as (id' & ver' & Hs & Hid' & _ & ->).
    unfold spec.id_caps. simpl.
    replace (i + length id' - i)%nat with (length id') by lia.
    rewrite Hs, take_app_length. by apply is_arxiv_id_nonempty.
  - symmetry. by eapply ends_with_id_unique.
Qed.

Lemma ends_with_id_contains s id :
  spec.ends_with_id s id → spec.contains_id_pattern s.
Proof. intros (pre & ver & -> & Hid & _). by exists pre, id, ver. Qed.

Lemma contains_id_pattern_dot s :
  spec.contains_id_pattern s → "."%char ∈ s.
Proof.
  intros (pre & id & post & -> & a & b & -> & _).
  apply elem_of_app. right. apply elem_of_app. left.
  apply elem_of_app. right. apply list_elem_of_here.
Qed.

Lemma digits_snoc l :
  spec.all_digits l → l ≠ [] → ∃ l' d, l = l' ++ [d] ∧ class_d d = true.
Proof.
  intros Hl Hne. destruct (last l) as [d|] eqn:Hlast.
  - apply last_Some in Hlast as [l' ->]. exists l', d. split; [done|].
    unfold spec.all_digits in Hl. apply Forall_app in Hl as [_ Hd].
    by inversion Hd.
  - by apply last_None in Hlast.
Qed.

(** A string that ends with an identifier ends with a digit. *)
Lemma ends_with_id_snoc s id :
  spec.ends_with_id s id → ∃ s' d, s = s' ++ [d] ∧ class_d d = true.
Proof.
  intros (pre & ver & -> & (a & b & -> & _ & Hlb & _ & Hdb) & Hver).
  destruct Hver as [->|(n & -> & Hn & Hdn)].
  - destruct (digits_snoc b Hdb) as (b' & d & -> & Hd).
    { intros ->. simpl in Hlb. lia. }
    exists (pre ++ a ++ str "." ++ b'), d. split; [|done].
    rewrite app_nil_r. by assoc_right.
  - destruct (digits_snoc n Hdn Hn) as (n' & d & -> & Hd).
    exists (pre ++ (a ++ str "." ++ b) ++ str "v" ++ n'), d. split; [|done].
    by assoc_right.
Qed.

(** After its last dot, a string that ends with an identifier has digits
    and the letter [v] only. *)
Lemma ends_with_id_tail x y id c :
  spec.ends_with_id (x ++ "."%char :: y) id → "."%char ∉ y → c ∈ y →
  class_d c = true ∨ c = "v"%char.
Proof.
  intros (pre & ver & Hs & (a & b & -> & _ & _ & _ & Hdb) & Hver) Hy Hc.
  assert (x ++ "."%char :: y = (pre ++ a) ++ "."%char :: (b ++ ver)) as Heq.
  { rewrite Hs. by assoc_right. }
  apply split_last_unique in Heq as [_ ->]; [|done|].
  - apply elem_of_app in Hc as [Hc|Hc].
    + left. unfold spec.all_digits in Hdb. rewrite Forall_forall in Hdb.
      by apply Hdb.
    + destruct Hver as [->|(n & -> & _ & Hdn)].
      * by apply elem_of_nil in Hc.
      * simpl in Hc. apply elem_of_cons in Hc as [->|Hc]; [by right|].
        left. unfold spec.all_digits in Hdn. rewrite Forall_forall in Hdn.
        by apply Hdn.
  - intros [Hin|Hin]%elem_of_app;
      [by apply (digits_no_dot b)|by apply (version_no_dot ver)].
Qed.

(** C2. For an input [<scheme>://.../<4 digits>.<4-5 digits>v<digits>]
    the identity normalizer returns [<4 digits>.<4-5 digits>], whatever
    the digits of the version suffix are; for a string that does not
    contain the pattern [<4 digits>.<4-5 digits>] it returns the empty
    string. *)
Theorem extractArxivID_strips_version :
  (∀ scheme rest a b n,
      length a = 4%nat → (length b = 4%nat ∨ length b = 5%nat) → n ≠ [] →
      spec.all_digits a → spec.all_digits b → spec.all_digits n →
      parser.extractArxivID
        (scheme ++ str "://" ++ rest ++ str "/" ++ a ++ str "." ++ b
           ++ str "v" ++ n)
      = a ++ str "." ++ b)
  ∧ (∀ s, ¬ spec.contains_id_pattern s → parser.extractArxivID s = []).
Proof.
  split.
  - intros scheme rest a b n Hla Hlb Hn Hda Hdb Hdn.
    apply extractArxivID_complete.
    exists (scheme ++ str "://" ++ rest ++ str "/"), (str "v" ++ n).
    split_and!.
    + by assoc_right.
    + by exists a, b.
    + right. by exists n.
  - intros s Hs. destruct (extractArxivID_cases s) as [Hnil|Hends]; [done|].
    destruct Hs. by eapply ends_with_id_contains.
Qed.

(** C10 (as corrected). The identity normalizer recognizes the pattern
    only at the very end of the input: a non-empty result is an
    identifier that the input ends with (optionally followed by
    [v<digits>]), and an input that ends with such an identifier gives
    it.  So an input that contains the pattern but does not end with it
    gives the empty string; this is so whenever the text after the
    identifier ends with a character that is not a digit (a trailing
    slash), and whenever that text has no dot and has a character that is
    neither a digit nor [v] (a path segment).  It is not so for every
    trailing text: one that ends with the pattern is recognized. *)
Theorem extractArxivID_anchored_at_end :
  (∀ s, parser.extractArxivID s ≠ [] →
        spec.ends_with_id s (parser.extractArxivID s))
  ∧ (∀ s id, spec.ends_with_id s id → parser.extractArxivID s = id)
  ∧ (∀ s, spec.contains_id_pattern s →
          (∀ id, ¬ spec.ends_with_id s id) →
          parser.extractArxivID s = [])
  ∧ (∀ pre id ver t c,
        spec.is_arxiv_id id → ver = [] ∨ spec.is_version ver →
        class_d c = false →
        parser.extractArxivID (pre ++ id ++ ver ++ t ++ [c]) = [])
  ∧ (∀ pre id ver t c,
        spec.is_arxiv_id id → ver = [] ∨ spec.is_version ver →
        "."%char ∉ t → c ∈ t → class_d c = false → c ≠ "v"%char →
        parser.extractArxivID (pre ++ id ++ ver ++ t) = []).
Proof.
  split_and!.
  - intros s Hs. by destruct (extractArxivID_cases s).
  - apply extractArxivID_complete.
  - intros s _ Hs. destruct (extractArxivID_cases s) as [Hnil|Hends]; [done|].
    by destruct (Hs _ Hends).
  - intros pre id ver t c Hid Hver Hc.
    destruct (extractArxivID_cases (pre ++ id ++ ver ++ t ++ [c]))
      as [Hnil|Hends]; [done|].
    apply ends_with_id_snoc in Hends as (s' & d & Heq & Hd).
    rewrite !app_assoc in Heq. apply app_inj_tail in Heq as [_ ->].
    by rewrite Hd in Hc.
  - intros pre id ver t c (a & b & -> & _ & _ & _ & Hdb) Hver Ht Hin Hc Hv.
    destruct (extractArxivID_cases
                (pre ++ (a ++ str "." ++ b) ++ ver ++ t))
      as [Hnil|Hends]; [done|].
    replace (pre ++ (a ++ str "." ++ b) ++ ver ++ t)
      with ((pre ++ a) ++ "."%char :: (b ++ ver ++ t)) in Hends
      by (by assoc_right).
    apply (ends_with_id_tail _ _ _ c) in Hends as [Hd| ->].
    + by rewrite Hd in Hc.
    + done.
    + intros [Hin'|[Hin'|Hin']%elem_of_app]%elem_of_app;
        [by apply (digits_no_dot b)|by apply (version_no_dot ver)|done].
    + apply elem_of_app. right. apply elem_of_app. by right.
Qed.

End RegexpFacts.

(** ** Text normalizer *)
Section TextFacts.
Import regexp strings.





Lemma trim_n_drop encs fuel : ∀ s, ∃ n, trim_n encs fuel s = drop n s.
Proof.
  induction fuel as [|fuel IH]; intros s; simpl.
  - by exists 0%nat.
  - destruct (leading encs s) as [e|]; [|by exists 0%nat].
    destruct (IH (drop (length e) s)) as [n ->].
    exists (length e + n)%nat. by rewrite drop_drop.
Qed.






Lemma TrimRightSpace_take s : ∃ m, TrimRightSpace s = take m s.
Proof.
  unfold TrimRightSpace.
  destruct (trim_n_drop (map (@rev ascii) space_encodings) (length s)
              (rev s)) as [n ->].
  exists (length s - n)%nat.
  change (drop n (rev s)) with (skipn n (rev s)).
  by rewrite skipn_rev, rev_involutive.
Qed.





Lemma TrimSpace_infix s : ∃ n m, TrimSpace s = take m (drop n s).
Proof.
  unfold TrimSpace.
  destruct (TrimRightSpace_take (TrimLeftSpace s)) as [m ->].
  destruct (trim_n_drop space_encodings (length s) s) as [n Hn].
  exists n, m. unfold TrimLeftSpace. by rewrite Hn.
Qed.

Lemma run_length_spaces s :
  Forall (fun c => class_s c = true) (take (spec.run_length s) s)
  ∧ (spec.run_length s ≤ length s)%nat
  ∧ spec.starts_with_space (drop (spec.run_length s) s) = false.
Proof.
  induction s as [|c s (IH1 & IH2 & IH3)]; simpl; [done|].
  destruct (class_s c) eqn:Hc; simpl.
  - split_and!; [by constructor|lia|done].
  - split_and!; [done|lia|done].
Qed.

(** [\s+] matches, at the start of a text, the whole run of [\s]
    characters that the text starts with, if there is one. *)
Lemma whitespace_match_len s :
  match_len parser.whitespaceRegex s
  = match spec.run_length s with
    | O => None
    | S n => Some (S n)
    end.
Proof.
  unfold match_len, match_at, parser.whitespaceRegex. simpl.
  destruct (spec.run_length s) as [|n] eqn:Hrun.
  - destruct s as [|c s]; simpl in *; [done|].
    destruct (class_s c); [done|]. done.
  - destruct (run_length_spaces s) as (Hall & Hlen & Hend).
    rewrite Hrun in *.
    rewrite (rep_greedy class_s 1 None _ (S n) s 0 0
               [Some (0, S n)%nat]); [done|done|done|lia|done| |done].
    unfold spec.starts_with_space in Hend.
    destruct (drop (S n) s); [done|by left].
Qed.

Lemma replace_from_collapse s :
  replace_from parser.whitespaceRegex (str " ") s 0 = spec.collapse false s
  ∧ replace_from parser.whitespaceRegex (str " ") s (spec.run_length s)
    = spec.collapse true s.
Proof.
  induction s as [|c s [IH0 IHrun]]; [done|].
  assert (replace_from parser.whitespaceRegex (str " ") (c :: s) 0
          = spec.collapse false (c :: s)) as H0.
  { cbn [replace_from]. rewrite whitespace_match_len. simpl.
    destruct (class_s c); simpl; by f_equal. }
  split; [done|]. simpl spec.run_length. simpl spec.collapse.
  destruct (class_s c) eqn:Hc.
  - done.
  - rewrite H0. simpl. by rewrite Hc.
Qed.

Lemma ReplaceAllString_collapse s :
  ReplaceAllString parser.whitespaceRegex s (str " ") = spec.collapse false s.
Proof. apply replace_from_collapse. Qed.

Lemma cleanText_collapse s :
  parser.cleanText s = TrimSpace (spec.collapse false s).
Proof. unfold parser.cleanText. by rewrite ReplaceAllString_collapse. Qed.













End TextFacts.

(** ** Scheduler *)
Section SchedulerFacts.
Import scheduler.

(** Calling the stop function does not move the goroutine: a cycle in
    progress goes on. *)
Lemma stop_does_not_interrupt interval s s' :
  step interval Stop s = Some s' →
  at_pc s' = at_pc s ∧ log s' = log s ++ [(now s, StopSignal)].
Proof.
  simpl. destruct (stopChan_closed s); [discriminate|].
  by intros [= <-].
Qed.

(** A cycle in progress ends only by the return of [fetchPapers]. *)
Lemma cycle_ends_by_return interval e s s' :
  at_pc s = Fetching → step interval e s = Some s' →
  at_pc s' = Fetching ∨ (e = FetchDone ∧ at_pc s' = Selecting).
Proof.
  intros Hpc. destruct e; simpl; rewrite ?Hpc; try discriminate.
  - destruct (0 <=? d)%Z; [|discriminate]. intros [= <-]. by left.
  - destruct (negb (ticker_stopped s) && (next_tick s <=? now s)%Z);
      [|discriminate]. intros [= <-]. by left.
  - destruct (stopChan_closed s); [discriminate|]. intros [= <-]. by left.
  - intros [= <-]. by right.
Qed.

(** The first cycle does not start before the warm-up delay is over. *)
Lemma warm_up_delay interval s s' :
  at_pc s = Sleeping → step interval WakeUp s = Some s' →
  (wake_at s ≤ now s)%Z ∧ at_pc s' = Fetching
  ∧ log s' = log s ++ [(now s, CycleStart)].
Proof.
  intros Hpc. simpl. rewrite Hpc.
  destruct (wake_at s <=? now s)%Z eqn:Hwake; [|discriminate].
  intros [= <-]. split; [by apply Z.leb_le|done].
Qed.

(** C9 (the code against the claim).  The stop signal is only looked at
    in the select loop.  When the stop function is called one second after
    the start, during the warm-up sleep, the goroutine still wakes up at ten
    seconds and starts a cycle, for every fetch interval.  And in the loop,
    when the ticker fires and the stop function is called before the
    goroutine runs its select again, the select may take the tick and start
    one more cycle after the stop signal. *)
Theorem cycle_starts_after_stop :
  (∀ interval,
      ∃ s, run interval
             [Advance (1 * Second); Stop; Advance (9 * Second); WakeUp]
             (start interval) = Some s
           ∧ log s = [(1 * Second, StopSignal); (10 * Second, CycleStart)]%Z
           ∧ starts_after_stop false (log s) = [10 * Second]%Z)
  ∧ (∃ s, run (86400 * Second)
            [Advance (10 * Second); WakeUp; Advance (5 * Second); FetchDone;
             Advance (86385 * Second); Tick; Stop; RecvTick]
            (start (86400 * Second)) = Some s
          ∧ at_pc s = Fetching
          ∧ starts_after_stop false (log s) = [86400 * Second]%Z).
Proof.
  split.
  - intros interval. eexists. split; [reflexivity|]. split; reflexivity.
  - eexists. split; [reflexivity|]. split; reflexivity.
Qed.

End SchedulerFacts.

(** ** Instances on the data of the repository's tests *)
Section Instances.
Import regexp.

Lemma digits_2301 : spec.all_digits (str "2301").
Proof. repeat constructor. Qed.

Lemma digits_12345 : spec.all_digits (str "12345").
Proof. repeat constructor. Qed.

Lemma is_arxiv_id_2301_12345 : spec.is_arxiv_id (str "2301.12345").
Proof.
  exists (str "2301"), (str "12345").
  split_and!; [done|done|by right|apply digits_2301|apply digits_12345].
Qed.

Lemma is_version_v1 : spec.is_version (str "v1").
Proof. exists (str "1"). split_and!; [done|done|repeat constructor]. Qed.

Lemma no_dot_in (s : list ascii) :
  forallb (fun c => negb (Ascii.eqb c ".")) s = true → "."%char ∉ s.
Proof.
  intros Hall Hin. rewrite forallb_forall in Hall.
  apply list_elem_of_In, Hall in Hin. by rewrite Ascii.eqb_refl in Hin.
Qed.

(** The store keeps the library entry, the read flag and the tag of a
    paper that is upserted again with another title, and the time of its
    first insertion. *)
Lemma UpsertPaper_contract_witness :
  let d' := db.UpsertPaper 200%Z (testdata.paper "New Title")
              testdata.curated in
  (db.title <$> db.papers d' !! str "2301.12345") = Some (str "New Title")
  ∧ (db.created_at <$> db.papers d' !! str "2301.12345") = Some 100%Z
  ∧ db.papers d' !! str "2301.67890"
    = db.papers testdata.curated !! str "2301.67890"
  ∧ db.library d' = db.library testdata.curated
  ∧ db.paper_tags d' = db.paper_tags testdata.curated
  ∧ db.UpsertPaper 300%Z (testdata.paper "New Title") d' = d'.
Proof.
  destruct (UpsertPaper_contract 200%Z (testdata.paper "New Title")
              testdata.curated)
    as ((row & Hrow & Htitle & _ & _ & _ & _ & _ & _ & _ & Hcreated)
        & Hother & Hlib & _ & Htags & Hidem).
  cbv zeta.
  change (str "2301.12345") with (models.ID (testdata.paper "New Title")).
  rewrite Hrow. simpl. split_and!.
  - by rewrite Htitle.
  - rewrite Hcreated. vm_compute. reflexivity.
  - apply Hother. discriminate.
  - exact Hlib.
  - exact Htags.
  - apply Hidem.
Defined.

(** The examples of the specification for the identity normalizer. *)
Lemma extractArxivID_strips_version_witness :
  parser.extractArxivID (str "http://host/abs/2301.12345v1")
  = str "2301.12345"
  ∧ parser.extractArxivID (str "http://host/abs/2301.12345v2")
    = str "2301.12345"
  ∧ parser.extractArxivID (str "invalid") = [].
Proof.
  destruct extractArxivID_strips_version as [Hform Hnone].
  split_and!.
  - apply (Hform (str "http") (str "host/abs") (str "2301") (str "12345")
             (str "1"));
      [done|by right|done|apply digits_2301|apply digits_12345
      |repeat constructor].
  - apply (Hform (str "http") (str "host/abs") (str "2301") (str "12345")
             (str "2"));
      [done|by right|done|apply digits_2301|apply digits_12345
      |repeat constructor].
  - apply Hnone. intros Hdot%contains_id_pattern_dot.
    by apply (no_dot_in (str "invalid")).
Defined.

(** A trailing slash or a trailing path segment after the identifier
    makes the identity normalizer fail. *)
Lemma extractArxivID_anchored_at_end_witness :
  parser.extractArxivID (str "http://arxiv.org/abs/2301.12345v1/") = []
  ∧ parser.extractArxivID (str "http://arxiv.org/2301.12345/abs") = []
  ∧ parser.extractArxivID (str "2301.12345/") = []
  ∧ spec.ends_with_id (str "http://arxiv.org/abs/2301.12345v1")
      (parser.extractArxivID (str "http://arxiv.org/abs/2301.12345v1"))
  ∧ parser.extractArxivID (str "2301.12345") = str "2301.12345".
Proof.
  destruct extractArxivID_anchored_at_end
    as (Hends & Hat_end & Hnot_end & Hslash & Hsegment).
  split_and!.
  - apply (Hslash (str "http://arxiv.org/abs/") (str "2301.12345")
             (str "v1") [] "/"%char);
      [apply is_arxiv_id_2301_12345|right; apply is_version_v1|done].
  - apply (Hsegment (str "http://arxiv.org/") (str "2301.12345") []
             (str "/abs") "/"%char);
      [apply is_arxiv_id_2301_12345|by left|by apply no_dot_in
      |apply list_elem_of_here|done|done].
  - apply Hnot_end.
    + exists [], (str "2301.12345"), (str "/").
      split; [done|apply is_arxiv_id_2301_12345].
    + intros id (s' & d & Heq & Hd)%ends_with_id_snoc.
      change (str "2301.12345/") with (str "2301.12345" ++ ["/"%char]) in Heq.
      apply app_inj_tail in Heq as [_ <-]. discriminate.
  - apply Hends. vm_compute. discriminate.
  - apply Hat_end. exists [], [].
    split_and!; [done|apply is_arxiv_id_2301_12345|by left].
Defined.

(** Trailing text after the pattern does not always make the identity
    normalizer fail: when the trailing text itself ends with digits that
    complete the pattern, or holds the pattern again at its end, the
    result is the identifier at the very end of the input, not the empty
    string.  So it is not so that every string in which the pattern is
    followed by other trailing text gives the empty result. *)
Lemma trailing_text_may_end_with_pattern :
  spec.is_arxiv_id (str "2301.12345")
  ∧ ¬ spec.is_version (str ".6789")
  ∧ ¬ spec.is_version (str "/2301.12345")
  ∧ parser.extractArxivID (str "2301.12345" ++ str ".6789")
    = str "2345.6789"
  ∧ parser.extractArxivID
      (str "http://arxiv.org/abs/" ++ str "2301.12345" ++ str "/2301.12345")
    = str "2301.12345"
  ∧ ¬ (∀ pre id t,
         spec.is_arxiv_id id → t ≠ [] → ¬ spec.is_version t →
         parser.extractArxivID (pre ++ id ++ t) = []).
Proof.
  assert (¬ spec.is_version (str ".6789")) as Hnot.
  { intros (n & Hn & _). discriminate. }
  split_and!.
  - apply is_arxiv_id_2301_12345.
  - exact Hnot.
  - intros (n & Hn & _). discriminate.
  - vm_compute. reflexivity.
  - vm_compute. reflexivity.
  - intros Hall.
    specialize (Hall [] (str "2301.12345") (str ".6789")
                  is_arxiv_id_2301_12345 ltac:(discriminate) Hnot).
    vm_compute in Hall. discriminate.
Qed.

(** An entry with a malformed identifier, and the two-entry feed of the
    specification. *)
Lemma ToPapers_skips_failures_witness :
  (∃ err, parser.ToPaper testdata.time_Parse
            {| parser.ID := str "invalid"; parser.Title := [];
               parser.Summary := []; parser.Published := [];
               parser.Updated := []; parser.Authors := [];
               parser.Links := []; parser.Categories := [] |}
          = inr err)
  ∧ ∃ p2 err1,
      parser.ToPaper testdata.time_Parse testdata.entry2 = inl p2
      ∧ parser.ToPapers testdata.time_Parse
          (testdata.feed [testdata.entry1_bad_time; testdata.entry2])
        = ([p2], None, [(0%nat, err1)]).
Proof.
  destruct (ToPapers_skips_failures testdata.time_Parse)
    as (_ & Hfails & Htwo).
  split.
  { apply Hfails. left. vm_compute. reflexivity. }
  destruct (parser.ToPaper testdata.time_Parse testdata.entry2)
    as [p2|err] eqn:Hp2; [|vm_compute in Hp2; discriminate].
  destruct (Htwo (testdata.feed [testdata.entry1_bad_time; testdata.entry2])
              testdata.entry1_bad_time testdata.entry2 p2)
    as [err1 Hfeed].
  - reflexivity.
  - left. eexists. vm_compute. reflexivity.
  - exact Hp2.
  - by exists p2, err1.
Defined.

(** An entry with two links of each role, and an entry without links. *)
Lemma ToPaper_last_link_wins_witness :
  match parser.ToPaper testdata.time_Parse testdata.entry_two_of_each with
  | inl p =>
      models.PDFUrl p = str "http://arxiv.org/pdf/2301.12345v2"
      ∧ models.ArxivUrl p = str "http://arxiv.org/abs/2301.12345v2"
  | inr _ => False
  end
  ∧ match parser.ToPaper testdata.time_Parse testdata.entry_no_links with
    | inl p => models.PDFUrl p = [] ∧ models.ArxivUrl p = []
    | inr _ => False
    end.
Proof.
  split.
  - destruct (parser.ToPaper testdata.time_Parse testdata.entry_two_of_each)
      as [p|err] eqn:Hp; [|vm_compute in Hp; discriminate].
    destruct (ToPaper_last_link_wins testdata.time_Parse _ p Hp)
      as (Hpdf & Harx & _).
    rewrite Hpdf, Harx. split; vm_compute; reflexivity.
  - destruct (parser.ToPaper testdata.time_Parse testdata.entry_no_links)
      as [p|err] eqn:Hp; [|vm_compute in Hp; discriminate].
    destruct (ToPaper_last_link_wins testdata.time_Parse _ p Hp)
      as (_ & _ & Hpdf & Harx & _).
    split; [apply Hpdf|apply Harx]; constructor.
Defined.

(** The first link of a role does not win: with two links titled [pdf]
    and two links with rel [alternate], the urls of the paper are the
    hrefs of the second links, not of the first ones. *)
Lemma first_link_does_not_win :
  match parser.ToPaper testdata.time_Parse testdata.entry_two_of_each with
  | inl p =>
      spec.first_href spec.is_pdf (parser.Links testdata.entry_two_of_each)
      = str "http://arxiv.org/pdf/2301.12345v1"
      ∧ models.PDFUrl p = str "http://arxiv.org/pdf/2301.12345v2"
      ∧ models.PDFUrl p
        ≠ spec.first_href spec.is_pdf
            (parser.Links testdata.entry_two_of_each)
      ∧ models.ArxivUrl p
        ≠ spec.first_href spec.is_alternate
            (parser.Links testdata.entry_two_of_each)
  | inr _ => False
  end.
Proof. vm_compute. split_and!; [done|done|discriminate|discriminate]. Qed.



End Instances.

(** ** Store: tags, library and retrieval *)
Section QueryFacts.
Import db.

Lemma bytes_le_total a : ∀ b, bytes_le a b = true ∨ bytes_le b a = true.
Proof.
  induction a as [|x a IH]; intros [|y b]; cbn [bytes_le]; auto.
  destruct (Nat.ltb_spec (nat_of_ascii x) (nat_of_ascii y)); [by left|].
  destruct (Nat.ltb_spec (nat_of_ascii y) (nat_of_ascii x)); [by right|].
  apply IH.
Qed.

Lemma bytes_le_trans a : ∀ b c,
  bytes_le a b = true → bytes_le b c = true → bytes_le a c = true.
Proof.
  induction a as [|x a IH]; intros [|y b] [|z c]; cbn [bytes_le]; try done.
  destruct (Nat.ltb_spec (nat_of_ascii x) (nat_of_ascii y));
    destruct (Nat.ltb_spec (nat_of_ascii y) (nat_of_ascii x));
    destruct (Nat.ltb_spec (nat_of_ascii y) (nat_of_ascii z));
    destruct (Nat.ltb_spec (nat_of_ascii z) (nat_of_ascii y));
    destruct (Nat.ltb_spec (nat_of_ascii x) (nat_of_ascii z));
    destruct (Nat.ltb_spec (nat_of_ascii z) (nat_of_ascii x));
    try done; try lia.
  apply IH.
Qed.

Lemma bytes_le_antisym a : ∀ b,
  bytes_le a b = true → bytes_le b a = true → a = b.
Proof.
  induction a as [|x a IH]; intros [|y b]; cbn [bytes_le]; try done.
  destruct (Nat.ltb_spec (nat_of_ascii x) (nat_of_ascii y));
    destruct (Nat.ltb_spec (nat_of_ascii y) (nat_of_ascii x));
    try done; try lia.
  intros Hab Hba. f_equal; [|by apply IH].
  rewrite <- (ascii_nat_embedding x), <- (ascii_nat_embedding y).
  f_equal. lia.
Qed.

#[local] Instance by_name_total : Total by_name.
Proof. intros t1 t2. apply bytes_le_total. Qed.

#[local] Instance by_name_trans : Transitive by_name.
Proof. intros t1 t2 t3. apply bytes_le_trans. Qed.

Lemma elem_of_order_by_name t rows : t ∈ order_by_name rows ↔ t ∈ rows.
Proof. unfold order_by_name. by rewrite merge_sort_Permutation. Qed.

Lemma elem_of_tag_rows t d :
  t ∈ tag_rows d ↔ tags d !! models.Tag_ID t = Some (models.Tag_Name t).
Proof.
  unfold tag_rows. rewrite list_elem_of_fmap. split.
  - intros ([id name] & -> & Hin). by apply elem_of_map_to_list in Hin.
  - intros Hin. exists (models.Tag_ID t, models.Tag_Name t).
    split; [by destruct t|]. by apply elem_of_map_to_list.
Qed.

Lemma tag_rows_ids d : models.Tag_ID <$> tag_rows d = (map_to_list (tags d)).*1.
Proof. unfold tag_rows. rewrite <- list_fmap_compose. done. Qed.

Lemma NoDup_tag_rows d : NoDup (tag_rows d).
Proof.
  apply (NoDup_fmap_1 models.Tag_ID). rewrite tag_rows_ids.
  apply NoDup_fst_map_to_list.
Qed.

Lemma elem_of_GetPaperTags t paperID d :
  t ∈ GetPaperTags paperID d ↔
  (paperID, models.Tag_ID t) ∈ paper_tags d
  ∧ tags d !! models.Tag_ID t = Some (models.Tag_Name t).
Proof.
  unfold GetPaperTags.
  by rewrite elem_of_order_by_name, list_elem_of_filter, elem_of_tag_rows.
Qed.

(** [GetPaperTags] returns exactly the tags of the vocabulary that are
    associated with the paper, each once, ordered by name. *)
Theorem GetPaperTags_exact (paperID : list ascii) (d : DB) :
  (∀ t, t ∈ GetPaperTags paperID d ↔
        (paperID, models.Tag_ID t) ∈ paper_tags d
        ∧ tags d !! models.Tag_ID t = Some (models.Tag_Name t))
  ∧ NoDup (GetPaperTags paperID d)
  ∧ StronglySorted by_name (GetPaperTags paperID d).
Proof.
  split_and!.
  - intros t. apply elem_of_GetPaperTags.
  - unfold GetPaperTags, order_by_name. rewrite merge_sort_Permutation.
    apply NoDup_filter, NoDup_tag_rows.
  - apply StronglySorted_merge_sort; apply _.
Qed.

Lemma GetPaperTags_ext paperID d d' :
  tags d' = tags d →
  (∀ tagID, (paperID, tagID) ∈ paper_tags d' ↔ (paperID, tagID) ∈ paper_tags d) →
  GetPaperTags paperID d' = GetPaperTags paperID d.
Proof.
  intros Htags Hassoc. unfold GetPaperTags, tag_rows. rewrite Htags.
  f_equal. apply list_filter_iff. intros t. apply Hassoc.
Qed.

(** Tagging shows in the tags of the paper and untagging removes it
    again; both leave the tags of other papers and the vocabulary as they
    are, tagging twice is tagging once, and untagging a fresh association
    restores the store. *)
Theorem TagPaper_UntagPaper (paperID : list ascii) (tagID : Z)
    (name : list ascii) (d : DB) :
  tags d !! tagID = Some name →
  ({| models.Tag_ID := tagID; models.Tag_Name := name |}
     ∈ GetPaperTags paperID (TagPaper paperID tagID d))
  ∧ ({| models.Tag_ID := tagID; models.Tag_Name := name |}
       ∉ GetPaperTags paperID (UntagPaper paperID tagID d))
  ∧ TagPaper paperID tagID (TagPaper paperID tagID d)
    = TagPaper paperID tagID d
  ∧ ((paperID, tagID) ∉ paper_tags d →
     UntagPaper paperID tagID (TagPaper paperID tagID d) = d)
  ∧ (∀ other, other ≠ paperID →
       GetPaperTags other (TagPaper paperID tagID d) = GetPaperTags other d
       ∧ GetPaperTags other (UntagPaper paperID tagID d)
         = GetPaperTags other d)
  ∧ GetAllTags (TagPaper paperID tagID d) = GetAllTags d
  ∧ GetAllTags (UntagPaper paperID tagID d) = GetAllTags d.
Proof.
  intros Htag. split_and!.
  - apply elem_of_GetPaperTags. simpl. split; [|done].
    apply elem_of_union. left. by apply elem_of_singleton.
  - intros [Hin _]%elem_of_GetPaperTags. simpl in Hin.
    apply elem_of_difference in Hin as [_ Hin]. apply Hin.
    by apply elem_of_singleton.
  - unfold TagPaper. simpl. f_equal.
    by rewrite (assoc_L (∪)), (idemp_L (∪)).
  - intros Hfresh. destruct d as [ps lib tgs pts]. unfold UntagPaper, TagPaper.
    simpl in *. f_equal. apply set_eq. intros x.
    rewrite elem_of_difference, elem_of_union, elem_of_singleton.
    split; [by intros [[->|?] ?]|]. intros Hx. split; [by right|].
    by intros ->.
  - intros other Hother. split; apply GetPaperTags_ext; try done.
    + intros tid. simpl. rewrite elem_of_union, elem_of_singleton.
      split; [|by right]. intros [[= ? ?]|?]; done.
    + intros tid. simpl. rewrite elem_of_difference, elem_of_singleton.
      split; [by intros [? _]|]. intros Hin. split; [done|].
      intros [= ? ?]; done.
  - done.
  - done.
Qed.

Lemma tag_by_name_Some name d id :
  tag_by_name name d = Some id → tags d !! id = Some name.
Proof.
  unfold tag_by_name. destruct (head _) as [t|] eqn:Hhead; [|done].
  intros [= <-]. apply head_Some_elem_of, list_elem_of_filter in Hhead
    as [<- Hin].
  by apply elem_of_tag_rows.
Qed.

Lemma tag_by_name_None name d id :
  tag_by_name name d = None → tags d !! id ≠ Some name.
Proof.
  unfold tag_by_name. destruct (head _) as [t|] eqn:Hhead; [done|].
  intros _ Hid. apply head_None in Hhead.
  assert ({| models.Tag_ID := id; models.Tag_Name := name |}
          ∈ filter (fun t => models.Tag_Name t = name) (tag_rows d)) as Hin.
  { apply list_elem_of_filter. split; [done|]. by apply elem_of_tag_rows. }
  rewrite Hhead in Hin. by apply elem_of_nil in Hin.
Qed.

Lemma tag_by_name_unique name d id :
  names_unique d → tags d !! id = Some name → tag_by_name name d = Some id.
Proof.
  intros Huniq Hid. destruct (tag_by_name name d) as [id'|] eqn:Hby.
  - f_equal. apply tag_by_name_Some in Hby. by eapply Huniq.
  - by apply (tag_by_name_None _ _ id) in Hby.
Qed.

Lemma foldr_max_ge (l : list Z) x : x ∈ l → (x ≤ foldr Z.max 0 l)%Z.
Proof.
  induction l as [|y l IH]; [by intros ?%elem_of_nil|].
  intros [->|Hin]%elem_of_cons; simpl; [lia|]. apply IH in Hin. lia.
Qed.

Lemma foldr_max_nonneg (l : list Z) : (0 ≤ foldr Z.max 0 l)%Z.
Proof. induction l as [|y l IH]; simpl; lia. Qed.

(** The id of a new tag is not in use. *)
Lemma next_tag_id_fresh d : tags d !! next_tag_id d = None.
Proof.
  destruct (tags d !! next_tag_id d) as [name|] eqn:Hnext; [|done].
  assert (next_tag_id d ∈ models.Tag_ID <$> tag_rows d) as Hin.
  { apply list_elem_of_fmap.
    exists {| models.Tag_ID := next_tag_id d; models.Tag_Name := name |}.
    split; [done|]. by apply elem_of_tag_rows. }
  apply foldr_max_ge in Hin. unfold next_tag_id in Hin at 1. lia.
Qed.

(** [CreateTag] is get-or-create.  In a store whose tag names are unique
    it returns an id that carries the name afterwards, keeps every
    existing tag and the uniqueness of names, leaves the store as it is
    when the name exists, touches no other table, and a second call
    returns the same id and changes nothing. *)
Theorem CreateTag_get_or_create (name : list ascii) (d : DB) :
  names_unique d →
  tags (CreateTag name d).2 !! (CreateTag name d).1 = Some name
  ∧ names_unique (CreateTag name d).2
  ∧ (∀ i n, tags d !! i = Some n → tags (CreateTag name d).2 !! i = Some n)
  ∧ (∀ i, tags d !! i = Some name → CreateTag name d = (i, d))
  ∧ ((∀ i, tags d !! i ≠ Some name) →
     tags d !! (CreateTag name d).1 = None
     ∧ (0 < (CreateTag name d).1)%Z)
  ∧ CreateTag name (CreateTag name d).2 = CreateTag name d
  ∧ papers (CreateTag name d).2 = papers d
  ∧ library (CreateTag name d).2 = library d
  ∧ paper_tags (CreateTag name d).2 = paper_tags d.
Proof.
  intros Huniq. unfold CreateTag.
  destruct (tag_by_name name d) as [id|] eqn:Hby; simpl.
  - pose proof (tag_by_name_Some _ _ _ Hby) as Hid. split_and!; try done.
    + intros i Hi. f_equal. by eapply Huniq.
    + intros Hnone. by destruct (Hnone id).
    + by rewrite Hby.
  - pose proof (next_tag_id_fresh d) as Hfresh.
    assert (names_unique
              {| papers := papers d; library := library d;
                 tags := <[next_tag_id d := name]> (tags d);
                 paper_tags := paper_tags d |}) as Huniq'.
    { intros i j n. simpl. rewrite !lookup_insert.
      repeat case_decide; subst; intros Hi Hj; simplify_eq; try done.
      - by apply (tag_by_name_None _ _ j) in Hby.
      - by apply (tag_by_name_None _ _ i) in Hby.
      - by eapply Huniq. }
    split_and!; try done.
    + by rewrite lookup_insert_eq.
    + intros i n Hi. rewrite lookup_insert_ne; [done|]. intros <-.
      by rewrite Hfresh in Hi.
    + intros i Hi. by apply (tag_by_name_None _ _ i) in Hby.
    + intros _. split; [done|]. unfold next_tag_id.
      pose proof (foldr_max_nonneg (models.Tag_ID <$> tag_rows d)). lia.
    + rewrite (tag_by_name_unique name _ (next_tag_id d)); [done|done|].
      simpl. by rewrite lookup_insert_eq.
Qed.

Lemma GetPaperTags_UpsertPaper now paper id d :
  GetPaperTags id (UpsertPaper now paper d) = GetPaperTags id d.
Proof. by apply GetPaperTags_ext. Qed.

(** What is upserted is what [GetPaperByID] retrieves: the paper-owned
    fields are those of the upserted paper, whatever the join-populated
    fields of the argument are; creation time, library membership, read
    flag and tags are those retrieved before (the time of the statement
    for a new paper).  Retrieval of other ids is not affected, and
    retrieval fails exactly for the ids that are not in [papers]. *)
Theorem GetPaperByID_UpsertPaper (now : models.Time) (paper : models.Paper)
    (d : DB) :
  (∃ got, GetPaperByID (models.ID paper) (UpsertPaper now paper d) = inl got
          ∧ models.ID got = models.ID paper
          ∧ models.Title got = models.Title paper
          ∧ models.Abstract got = models.Abstract paper
          ∧ models.Authors got = models.Authors paper
          ∧ models.Categories got = models.Categories paper
          ∧ models.PublishedAt got = models.PublishedAt paper
          ∧ models.UpdatedAt got = models.UpdatedAt paper
          ∧ models.PDFUrl got = models.PDFUrl paper
          ∧ models.ArxivUrl got = models.ArxivUrl paper
          ∧ (∀ old, GetPaperByID (models.ID paper) d = inl old →
                    models.CreatedAt got = models.CreatedAt old
                    ∧ models.InLibrary got = models.InLibrary old
                    ∧ models.IsRead got = models.IsRead old
                    ∧ models.Tags got = models.Tags old)
          ∧ (papers d !! models.ID paper = None →
             models.CreatedAt got = now))
  ∧ (∀ id, id ≠ models.ID paper →
           GetPaperByID id (UpsertPaper now paper d) = GetPaperByID id d)
  ∧ (∀ id, (∃ err, GetPaperByID id d = inr err) ↔ papers d !! id = None).
Proof.
  split_and!.
  - unfold GetPaperByID at 1. simpl. rewrite lookup_insert_eq.
    eexists. split; [reflexivity|]. simpl. split_and!; try done.
    + intros old. unfold GetPaperByID.
      destruct (papers d !! models.ID paper) as [row|]; [|done].
      intros [= <-]. simpl. by split_and!.
    + by intros ->.
  - intros id Hid. unfold GetPaperByID. simpl.
    rewrite lookup_insert_ne by done.
    destruct (papers d !! id); [|done].
    by rewrite GetPaperTags_UpsertPaper.
  - intros id. unfold GetPaperByID. destruct (papers d !! id).
    + split; [by intros [? ?]|done].
    + split; [done|eauto].
Qed.

Lemma DB_eq d d' :
  papers d = papers d' → library d = library d' → tags d = tags d' →
  paper_tags d = paper_tags d' → d = d'.
Proof. destruct d, d'; simpl; by intros -> -> -> ->. Qed.

(** Saving a paper that is already in the library changes nothing: the
    read flag and the time of the first save are kept.  Removing and
    saving again forgets the read flag; removing a paper that was just
    saved, and was not in the library before, restores the store. *)
Theorem SaveToLibrary_RemoveFromLibrary (id : list ascii)
    (t1 t2 : models.Time) (d : DB) :
  SaveToLibrary t2 id (SaveToLibrary t1 id d) = SaveToLibrary t1 id d
  ∧ (∀ row, library d !! id = Some row → SaveToLibrary t1 id d = d)
  ∧ library (SaveToLibrary t2 id (RemoveFromLibrary id d)) !! id
    = Some {| is_read := false; saved_at := t2 |}
  ∧ (library d !! id = None →
     RemoveFromLibrary id (SaveToLibrary t1 id d) = d
     ∧ RemoveFromLibrary id d = d)
  ∧ RemoveFromLibrary id (RemoveFromLibrary id d) = RemoveFromLibrary id d
  ∧ (∀ other, other ≠ id →
       library (SaveToLibrary t1 id d) !! other = library d !! other
       ∧ library (RemoveFromLibrary id d) !! other = library d !! other).
Proof.
  split_and!.
  - unfold SaveToLibrary at 1.
    destruct (library (SaveToLibrary t1 id d) !! id) eqn:Hin; [done|].
    exfalso. revert Hin. unfold SaveToLibrary.
    destruct (library d !! id) eqn:Hd; simpl; [by rewrite Hd|].
    by rewrite lookup_insert_eq.
  - intros row Hrow. unfold SaveToLibrary. by rewrite Hrow.
  - unfold SaveToLibrary. simpl. rewrite lookup_delete_eq. simpl.
    by rewrite lookup_insert_eq.
  - intros Hnone. split.
    + unfold SaveToLibrary. rewrite Hnone. apply DB_eq; try done. simpl.
      by rewrite delete_insert_eq, delete_id.
    + apply DB_eq; try done. simpl. by rewrite delete_id.
  - apply DB_eq; try done. simpl. apply delete_id, lookup_delete_eq.
  - intros other Hother. split.
    + unfold SaveToLibrary. destruct (library d !! id); [done|]. simpl.
      by rewrite lookup_insert_ne.
    + simpl. by rewrite lookup_delete_ne.
Qed.

(** [ToggleRead] flips the read flag of a paper of the library and
    touches nothing else: the tables [papers], [tags] and [paper_tags] and
    every other row of [library] are as before, and what [GetPaperByID]
    retrieves for the paper is what it retrieved before with the read
    flag negated, every other field the same; retrieval of other ids is
    not affected.  Toggling twice restores the store; for a paper that is
    not in the library it changes nothing (and reports no error). *)
Theorem ToggleRead_involutive (id : list ascii) (d : DB) :
  ToggleRead id (ToggleRead id d) = d
  ∧ (library d !! id = None → ToggleRead id d = d)
  ∧ (∀ row, library d !! id = Some row →
       library (ToggleRead id d) !! id
       = Some {| is_read := negb (is_read row); saved_at := saved_at row |})
  ∧ (∀ other, other ≠ id →
       library (ToggleRead id d) !! other = library d !! other)
  ∧ papers (ToggleRead id d) = papers d
  ∧ tags (ToggleRead id d) = tags d
  ∧ paper_tags (ToggleRead id d) = paper_tags d
  ∧ (∀ paper, GetPaperByID id d = inl paper →
       models.InLibrary paper = true →
       GetPaperByID id (ToggleRead id d)
       = inl {| models.ID := models.ID paper;
                models.Title := models.Title paper;
                models.Abstract := models.Abstract paper;
                models.Authors := models.Authors paper;
                models.Categories := models.Categories paper;
                models.PublishedAt := models.PublishedAt paper;
                models.UpdatedAt := models.UpdatedAt paper;
                models.PDFUrl := models.PDFUrl paper;
                models.ArxivUrl := models.ArxivUrl paper;
                models.CreatedAt := models.CreatedAt paper;
                models.InLibrary := true;
                models.IsRead := negb (models.IsRead paper);
                models.Tags := models.Tags paper |})
  ∧ (∀ paper, GetPaperByID id d = inl paper →
       models.InLibrary paper = false →
       GetPaperByID id (ToggleRead id d) = inl paper)
  ∧ (∀ other, other ≠ id →
       GetPaperByID other (ToggleRead id d) = GetPaperByID other d).
Proof.
  assert (library d !! id = None → ToggleRead id d = d) as Hnone.
  { intros Hnone. apply DB_eq; try done. simpl. apply map_eq. intros k.
    rewrite lookup_alter. case_decide; [|done]. subst. by rewrite Hnone. }
  split_and!; try done.
  - apply DB_eq; try done. simpl. apply map_eq. intros k.
    rewrite !lookup_alter. repeat case_decide; try done. subst k.
    destruct (library d !! id) as [[r t]|]; simpl; [|done].
    by rewrite negb_involutive.
  - intros row Hrow. simpl. rewrite lookup_alter, decide_True by done.
    by rewrite Hrow.
  - intros other Hother. simpl. by rewrite lookup_alter, decide_False.
  - intros paper. unfold GetPaperByID. simpl.
    destruct (papers d !! id) as [prow|]; [|done]. intros [= <-]. simpl.
    intros Hin%bool_decide_eq_true. destruct Hin as [row Hrow].
    rewrite lookup_alter, decide_True by done. rewrite Hrow. simpl.
    reflexivity.
  - intros paper Hpaper Hin. rewrite Hnone; [done|].
    unfold GetPaperByID in Hpaper.
    destruct (papers d !! id) as [prow|]; [|done].
    injection Hpaper as <-. simpl in Hin.
    apply bool_decide_eq_false in Hin.
    destruct (library d !! id) eqn:Hlib; [|done]. destruct Hin. by eexists.
  - intros other Hother. unfold GetPaperByID. simpl.
    rewrite lookup_alter, decide_False by done.
    by destruct (papers d !! other).
Qed.

(** The counters: upserting adds one paper exactly when the id is new and
    never changes the size of the library; saving adds one library entry
    exactly when the paper was not saved, removing takes one away exactly
    when it was, and neither changes the number of papers; toggling,
    tagging, untagging and creating a tag change neither counter. *)
Theorem counts_follow_operations (now : models.Time) (paper : models.Paper)
    (id name : list ascii) (tagID : Z) (d : DB) :
  GetPaperCount (UpsertPaper now paper d)
  = match papers d !! models.ID paper with
    | Some _ => GetPaperCount d
    | None => S (GetPaperCount d)
    end
  ∧ GetLibraryCount (UpsertPaper now paper d) = GetLibraryCount d
  ∧ GetLibraryCount (SaveToLibrary now id d)
    = match library d !! id with
      | Some _ => GetLibraryCount d
      | None => S (GetLibraryCount d)
      end
  ∧ GetPaperCount (SaveToLibrary now id d) = GetPaperCount d
  ∧ GetLibraryCount (RemoveFromLibrary id d)
    = match library d !! id with
      | Some _ => pred (GetLibraryCount d)
      | None => GetLibraryCount d
      end
  ∧ GetPaperCount (RemoveFromLibrary id d) = GetPaperCount d
  ∧ GetLibraryCount (ToggleRead id d) = GetLibraryCount d
  ∧ GetPaperCount (ToggleRead id d) = GetPaperCount d
  ∧ GetPaperCount (TagPaper id tagID d) = GetPaperCount d
  ∧ GetLibraryCount (TagPaper id tagID d) = GetLibraryCount d
  ∧ GetPaperCount (UntagPaper id tagID d) = GetPaperCount d
  ∧ GetLibraryCount (UntagPaper id tagID d) = GetLibraryCount d
  ∧ GetPaperCount (CreateTag name d).2 = GetPaperCount d
  ∧ GetLibraryCount (CreateTag name d).2 = GetLibraryCount d.
Proof.
  unfold GetPaperCount, GetLibraryCount. split_and!; try done.
  - simpl. destruct (papers d !! models.ID paper) eqn:Hin.
    + by apply map_size_insert_Some.
    + by apply map_size_insert_None.
  - unfold SaveToLibrary. destruct (library d !! id) eqn:Hin; [done|].
    simpl. by apply map_size_insert_None.
  - unfold SaveToLibrary. by destruct (library d !! id).
  - simpl. destruct (library d !! id) eqn:Hin.
    + by rewrite map_size_delete, Hin.
    + by rewrite delete_id.
  - simpl. rewrite <- !(size_dom (D:=gset (list ascii))).
    by rewrite dom_alter_L.
  - unfold CreateTag. by destruct (tag_by_name name d).
  - unfold CreateTag. by destruct (tag_by_name name d).
Qed.

End QueryFacts.

(** ** What the parser hands to the store *)
Section ConversionFacts.
Import regexp strings parser.

Variable time_Parse : list ascii -> list ascii -> option models.Time.

Local Abbreviation ToPaper := (parser.ToPaper time_Parse).
Local Abbreviation ToPapers := (parser.ToPapers time_Parse).

Lemma ends_with_id_is_id s id : spec.ends_with_id s id → spec.is_arxiv_id id.
Proof. by intros (pre & ver & _ & Hid & _). Qed.

Lemma is_arxiv_id_length id :
  spec.is_arxiv_id id → length id = 9%nat ∨ length id = 10%nat.
Proof.
  intros (a & b & -> & Hla & Hlb & _). rewrite !length_app. simpl. lia.
Qed.

Lemma extractArxivID_fixpoint id :
  spec.is_arxiv_id id → extractArxivID id = id.
Proof.
  intros Hid. apply extractArxivID_complete. exists [], [].
  split_and!; [by rewrite app_nil_r|done|by left].
Qed.

Lemma ToPaper_ID e p :
  ToPaper e = inl p →
  models.ID p = extractArxivID (ID e) ∧ extractArxivID (ID e) ≠ [].
Proof.
  unfold parser.ToPaper.
  destruct (decide (extractArxivID (ID e) = [])); [done|].
  destruct (parser.parseTime time_Parse (Published e)); [|done].
  destruct (parser.parseTime time_Parse (Updated e)); [|done].
  by intros [= <-].
Qed.

(** The identifier of every converted paper is canonical: it is the
    identifier [<4 digits>.<4-5 digits>] that the entry's id ends with, of
    nine or ten bytes, and the identity normalizer maps it to itself; the
    identity normalizer is idempotent on all strings. *)
Theorem converted_id_is_canonical :
  (∀ e p, ToPaper e = inl p →
          spec.ends_with_id (ID e) (models.ID p)
          ∧ spec.is_arxiv_id (models.ID p)
          ∧ (length (models.ID p) = 9%nat ∨ length (models.ID p) = 10%nat)
          ∧ extractArxivID (models.ID p) = models.ID p)
  ∧ (∀ s, extractArxivID (extractArxivID s) = extractArxivID s).
Proof.
  split.
  - intros e p [-> Hne]%ToPaper_ID.
    destruct (extractArxivID_cases (ID e)) as [Hnil|Hends]; [done|].
    pose proof (ends_with_id_is_id _ _ Hends) as Hid.
    split_and!; [done|done|by apply is_arxiv_id_length
                |by apply extractArxivID_fixpoint].
  - intros s. destruct (extractArxivID_cases s) as [->|Hends].
    + reflexivity.
    + by apply extractArxivID_fixpoint, (ends_with_id_is_id s).
Qed.

Lemma skipped_spec entries : ∀ i j err,
  (j, err) ∈ spec.skipped time_Parse i entries ↔
  ∃ k e, j = (i + k)%nat ∧ entries !! k = Some e ∧ ToPaper e = inr err.
Proof.
  induction entries as [|e entries IH]; intros i j err; simpl.
  - split; [by intros ?%elem_of_nil|]. by intros (k & e & _ & ? & _).
  - destruct (ToPaper e) as [p|err'] eqn:He.
    + rewrite IH. split.
      * intros (k & e' & -> & Hk & He'). exists (S k), e'.
        split_and!; [lia|done..].
      * intros ([|k] & e' & -> & Hk & He'); simpl in Hk.
        -- simplify_eq. congruence.
        -- exists k, e'. split_and!; [lia|done..].
    + rewrite elem_of_cons, IH. split.
      * intros [[= -> ->]|(k & e' & -> & Hk & He')].
        -- exists 0%nat, e. split_and!; [lia|done..].
        -- exists (S k), e'. split_and!; [lia|done..].
      * intros ([|k] & e' & -> & Hk & He'); simpl in Hk.
        -- left. simplify_eq. rewrite He in He'. injection He' as <-.
           f_equal. lia.
        -- right. exists k, e'. split_and!; [lia|done..].
Qed.

Lemma skipped_sorted entries : ∀ i,
  Forall (fun x => (i ≤ x)%nat) (spec.skipped time_Parse i entries).*1
  ∧ StronglySorted lt (spec.skipped time_Parse i entries).*1.
Proof.
  induction entries as [|e entries IH]; intros i; simpl.
  - split; constructor.
  - destruct (IH (S i)) as [Hge Hsorted].
    assert (Forall (fun x => (i ≤ x)%nat)
              (spec.skipped time_Parse (S i) entries).*1) as Hge'.
    { eapply Forall_impl; [done|]. simpl. intros; lia. }
    destruct (ToPaper e); [done|]. simpl. split.
    + constructor; [lia|done].
    + constructor; [done|]. eapply Forall_impl; [exact Hge|].
      simpl. intros; lia.
Qed.

Lemma converted_skipped_length entries : ∀ i,
  (length (spec.converted time_Parse entries)
   + length (spec.skipped time_Parse i entries) = length entries)%nat.
Proof.
  induction entries as [|e entries IH]; intros i; [done|].
  specialize (IH (S i)). unfold spec.converted in *. simpl.
  destruct (ToPaper e); simpl; rewrite <- IH;
    [reflexivity|by rewrite Nat.add_succ_r].
Qed.

(** [ToPapers] accounts for every entry: the papers and the warnings
    together are as many as the entries; the warnings name, in increasing
    order of index, exactly the entries that fail, each with the error of
    its conversion. *)
Theorem ToPapers_accounts_for_every_entry (f : Feed) :
  (length (ToPapers f).1.1 + length (ToPapers f).2 = length (Entries f))%nat
  ∧ (∀ i err, (i, err) ∈ (ToPapers f).2 ↔
              ∃ e, Entries f !! i = Some e ∧ ToPaper e = inr err)
  ∧ StronglySorted lt (ToPapers f).2.*1.
Proof.
  rewrite ToPapers_spec. simpl. split_and!.
  - apply converted_skipped_length.
  - intros i err. rewrite skipped_spec. split.
    + intros (k & e & -> & Hk & He). by exists e.
    + intros (e & Hk & He). by exists i, e.
  - apply skipped_sorted.
Qed.

Local Abbreviation is_visible := (fun c : ascii => spec.visible c = true).

Lemma class_s_not_visible c : class_s c = true → spec.visible c = false.
Proof.
  unfold class_s, spec.visible. generalize (nat_of_ascii c). intros n H.
  repeat match goal with
         | H : _ || _ = true |- _ => apply orb_true_iff in H as [H|H]
         end; apply Nat.eqb_eq in H; by subst.
Qed.

Lemma collapse_visible s : ∀ b,
  filter is_visible (spec.collapse b s) = filter is_visible s.
Proof.
  induction s as [|c s IH]; intros b; [done|]. simpl.
  destruct (class_s c) eqn:Hc.
  - apply class_s_not_visible in Hc.
    rewrite (filter_cons_False is_visible c) by (by rewrite Hc).
    destruct b; [apply IH|].
    rewrite (filter_cons_False is_visible " "%char) by done. apply IH.
  - rewrite !filter_cons. by rewrite IH.
Qed.

Lemma collapse_length s : ∀ b, (length (spec.collapse b s) ≤ length s)%nat.
Proof.
  induction s as [|c s IH]; intros b; [done|]. simpl.
  destruct (class_s c); [destruct b|]; simpl;
    [specialize (IH true)|specialize (IH true)|specialize (IH false)]; lia.
Qed.

Lemma has_prefix_app e : ∀ s,
  has_prefix e s = true → s = e ++ drop (length e) s.
Proof.
  induction e as [|a e IH]; intros [|b s]; simpl; try done.
  intros [Hab He]%andb_true_iff. apply Ascii.eqb_eq in Hab as ->.
  f_equal. by apply IH.
Qed.

Lemma filter_invisible e :
  forallb (fun c => negb (spec.visible c)) e = true →
  filter is_visible e = [].
Proof.
  induction e as [|c e IH]; [done|]. simpl.
  intros [Hc He]%andb_true_iff. apply negb_true_iff in Hc.
  rewrite filter_cons_False by (by rewrite Hc). by apply IH.
Qed.

Lemma trim_n_visible encs fuel : ∀ s,
  forallb (forallb (fun c => negb (spec.visible c))) encs = true →
  filter is_visible (trim_n encs fuel s) = filter is_visible s.
Proof.
  induction fuel as [|fuel IH]; intros s Hencs; [done|]. simpl.
  destruct (leading encs s) as [e|] eqn:Hlead; [|done].
  rewrite IH by done. unfold leading in Hlead.
  apply find_some in Hlead as [Hin He].
  rewrite (has_prefix_app e s He) at 2. rewrite filter_app.
  rewrite forallb_forall in Hencs.
  by rewrite (filter_invisible e (Hencs e Hin)).
Qed.

Lemma filter_rev (P : ascii → Prop) `{∀ c, Decision (P c)} (l : list ascii) :
  filter P (rev l) = rev (filter P l).
Proof.
  induction l as [|c l IH]; [done|]. simpl.
  rewrite filter_app, IH, filter_cons. destruct (decide (P c)).
  - by rewrite filter_cons_True, filter_nil.
  - rewrite filter_cons_False, filter_nil by done. by rewrite app_nil_r.
Qed.

Lemma TrimSpace_visible s :
  filter is_visible (TrimSpace s) = filter is_visible s.
Proof.
  unfold TrimSpace, TrimRightSpace, TrimLeftSpace.
  rewrite filter_rev, trim_n_visible by reflexivity.
  rewrite filter_rev, rev_involutive.
  by rewrite trim_n_visible by reflexivity.
Qed.

Lemma TrimSpace_length s : (length (TrimSpace s) ≤ length s)%nat.
Proof.
  destruct (TrimSpace_infix s) as (n & m & ->).
  rewrite length_take, length_drop. lia.
Qed.

Lemma ToPaper_text e p :
  ToPaper e = inl p →
  models.Title p = cleanText (Title e)
  ∧ models.Abstract p = cleanText (Summary e).
Proof.
  unfold parser.ToPaper.
  destruct (decide (extractArxivID (ID e) = [])); [done|].
  destruct (parser.parseTime time_Parse (Published e)); [|done].
  destruct (parser.parseTime time_Parse (Updated e)); [|done].
  by intros [= <-].
Qed.

(** The text normalizer never changes the visible text: the visible ASCII
    characters of its result are those of its argument, in the same
    order, and the result is never longer than the argument.  So title
    and abstract of a converted paper show the visible characters of the
    entry's title and summary. *)
Theorem cleanText_keeps_visible_text :
  (∀ s, filter is_visible (cleanText s) = filter is_visible s
        ∧ (length (cleanText s) ≤ length s)%nat)
  ∧ (∀ e p, ToPaper e = inl p →
            filter is_visible (models.Title p) = filter is_visible (Title e)
            ∧ filter is_visible (models.Abstract p)
              = filter is_visible (Summary e)).
Proof.
  assert (∀ s, filter is_visible (cleanText s) = filter is_visible s)
    as Hvis.
  { intros s. rewrite cleanText_collapse, TrimSpace_visible.
    apply collapse_visible. }
  split.
  - intros s. split; [apply Hvis|].
    rewrite cleanText_collapse.
    etrans; [apply TrimSpace_length|apply collapse_length].
  - intros e p [-> ->]%ToPaper_text. by rewrite !Hvis.
Qed.

(** Two versions of one item are one paper of the store: entries whose
    ids end with the same identifier, whatever their version suffixes,
    convert to papers with that identifier as id; upserting the second
    after the first adds no row and leaves the curation tables alone, and
    what is retrieved afterwards is the second paper in every
    paper-owned field, with the creation time of the first upsert (or of
    the row that was there before) and the library membership, read flag
    and tags that the id had before. *)
Theorem versions_share_one_row (e1 e2 : Entry) (p1 p2 : models.Paper)
    (id : list ascii) (t1 t2 : models.Time) (d : db.DB) :
  spec.ends_with_id (ID e1) id → spec.ends_with_id (ID e2) id →
  ToPaper e1 = inl p1 → ToPaper e2 = inl p2 →
  models.ID p1 = id ∧ models.ID p2 = id
  ∧ db.GetPaperCount (db.UpsertPaper t2 p2 (db.UpsertPaper t1 p1 d))
    = db.GetPaperCount (db.UpsertPaper t1 p1 d)
  ∧ db.library (db.UpsertPaper t2 p2 (db.UpsertPaper t1 p1 d)) = db.library d
  ∧ db.tags (db.UpsertPaper t2 p2 (db.UpsertPaper t1 p1 d)) = db.tags d
  ∧ db.paper_tags (db.UpsertPaper t2 p2 (db.UpsertPaper t1 p1 d))
    = db.paper_tags d
  ∧ (∀ other, other ≠ id →
       db.papers (db.UpsertPaper t2 p2 (db.UpsertPaper t1 p1 d)) !! other
       = db.papers d !! other)
  ∧ db.GetPaperByID id (db.UpsertPaper t2 p2 (db.UpsertPaper t1 p1 d))
    = inl {| models.ID := id;
             models.Title := models.Title p2;
             models.Abstract := models.Abstract p2;
             models.Authors := models.Authors p2;
             models.Categories := models.Categories p2;
             models.PublishedAt := models.PublishedAt p2;
             models.UpdatedAt := models.UpdatedAt p2;
             models.PDFUrl := models.PDFUrl p2;
             models.ArxivUrl := models.ArxivUrl p2;
             models.CreatedAt :=
               match db.papers d !! id with
               | Some old => db.created_at old
               | None => t1
               end;
             models.InLibrary := bool_decide (is_Some (db.library d !! id));
             models.IsRead :=
               from_option db.is_read false (db.library d !! id);
             models.Tags := db.GetPaperTags id d |}.
Proof.
  intros Hid1 Hid2 Hp1 Hp2.
  apply ToPaper_ID in Hp1 as [Hp1 _]. apply ToPaper_ID in Hp2 as [Hp2 _].
  rewrite (extractArxivID_complete _ _ Hid1) in Hp1.
  rewrite (extractArxivID_complete _ _ Hid2) in Hp2.
  split_and!; try done.
  - unfold db.GetPaperCount. simpl. rewrite Hp1, Hp2.
    apply map_size_insert_Some. by rewrite lookup_insert_eq.
  - intros other Hother. simpl. rewrite Hp1, Hp2.
    by rewrite !lookup_insert_ne.
  - unfold db.GetPaperByID. simpl. rewrite Hp1, Hp2.
    by rewrite !lookup_insert_eq.
Qed.

End ConversionFacts.

(** ** Fetching: requests and the rate limit *)
Section FetchFacts.
Import client.

Variable transport : Request -> Response + list ascii.
Variable Values_Encode : list (list ascii * list ascii) -> list ascii.
Variable xml_Decode : list ascii -> option parser.Feed.
Variable Sprintf_d : Z -> list ascii.

Local Abbreviation FetchNew :=
  (client.FetchNew transport Values_Encode xml_Decode Sprintf_d).
Local Abbreviation FetchByIDs :=
  (client.FetchByIDs transport Values_Encode xml_Decode).

(** The tail that [FetchNew] and [FetchByIDs] share: one request, then the
    status check, the decoding and the sleep. *)
Lemma request_outcome (req : Request) (delay : Duration) (w : World) :
  let run :=
    (resp ← Do transport req;
     if negb (StatusCode resp =? 200)%Z
     then fail (ErrStatus (StatusCode resp) (Body resp))
     else
       match parser.ParseFeed xml_Decode (Body resp) with
       | inr err => fail (ErrParseFeed err)
       | inl feed => _ ← Sleep delay; mret feed
       end) w in
  sent run.2 = sent w ++ [req]
  ∧ match run.1 with
    | inl feed =>
        slept run.2 = slept w ++ [delay]
        ∧ ∃ resp, transport req = inl resp ∧ StatusCode resp = 200%Z
                  ∧ xml_Decode (Body resp) = Some feed
    | inr _ => slept run.2 = slept w
    end.
Proof.
  cbv zeta. unfold mbind, IO_bind, Do.
  destruct (transport req) as [resp|e] eqn:Hresp; [|done].
  destruct (StatusCode resp =? 200)%Z eqn:Hstatus; [|done]. simpl.
  unfold parser.ParseFeed.
  destruct (xml_Decode (Body resp)) as [feed|] eqn:Hfeed; [|done]. simpl.
  split; [done|]. split; [done|]. exists resp.
  split_and!; [done|by apply Z.eqb_eq|done].
Qed.

(** [FetchNew] as a function of the answer to its one request. *)
Lemma FetchNew_answer (c : Client) (params : FetchParams) (w : World) :
  let req :=
    {| Method := str "GET";
       Req_URL :=
         {| Base := apiBaseURL;
            RawQuery :=
              Values_Encode
                [ (str "search_query",
                   buildSearchQuery (Categories params) (Keywords params));
                  (str "max_results", Sprintf_d (MaxResults params));
                  (str "sortBy",
                   if decide (SortBy params = []) then str "submittedDate"
                   else SortBy params);
                  (str "sortOrder",
                   if decide (SortOrder params = []) then str "descending"
                   else SortOrder params) ] |};
       UserAgent := str "ArXiv-Go-Nest/1.0" |} in
  let failed := {| sent := sent w ++ [req]; slept := slept w |} in
  FetchNew c params w
  = match transport req with
    | inr e => (inr (ErrExecute e), failed)
    | inl resp =>
        if (StatusCode resp =? 200)%Z then
          match xml_Decode (Body resp) with
          | None => (inr (ErrParseFeed parser.ErrDecodeXML), failed)
          | Some feed =>
              (inl feed, {| sent := sent w ++ [req];
                            slept := slept w ++ [rateLimitDelay c] |})
          end
        else (inr (ErrStatus (StatusCode resp) (Body resp)), failed)
    end.
Proof.
  cbv zeta. unfold client.FetchNew, mbind, IO_bind, Do.
  change (buildURL Values_Encode Sprintf_d _ params)
    with {| Base := apiBaseURL;
            RawQuery :=
              Values_Encode
                [ (str "search_query",
                   buildSearchQuery (Categories params) (Keywords params));
                  (str "max_results", Sprintf_d (MaxResults params));
                  (str "sortBy",
                   if decide (SortBy params = []) then str "submittedDate"
                   else SortBy params);
                  (str "sortOrder",
                   if decide (SortOrder params = []) then str "descending"
                   else SortOrder params) ] |}.
  destruct (transport _) as [resp|e]; [|done].
  destruct (StatusCode resp =? 200)%Z; [|done]. simpl.
  unfold parser.ParseFeed. by destruct (xml_Decode (Body resp)).
Qed.

(** Every call of [FetchNew], and every call of [FetchByIDs] with
    identifiers, sends exactly one request, whatever the answer is: there
    is no retry.  The rate-limit delay is slept exactly when the call
    succeeds, which it does only on an answer with status 200 that
    decodes; a failed call returns without any delay.  The request of
    [FetchNew] carries the search expression, the formatted maximum and the
    sort parameters, [submittedDate] and [descending] standing in for
    empty ones. *)
Theorem fetch_sleeps_on_success_only (c : Client) (w : World) :
  (∀ params,
     let req :=
       {| Method := str "GET";
          Req_URL :=
            {| Base := apiBaseURL;
               RawQuery :=
                 Values_Encode
                   [ (str "search_query",
                      buildSearchQuery (Categories params) (Keywords params));
                     (str "max_results", Sprintf_d (MaxResults params));
                     (str "sortBy",
                      if decide (SortBy params = []) then str "submittedDate"
                      else SortBy params);
                     (str "sortOrder",
                      if decide (SortOrder params = []) then str "descending"
                      else SortOrder params) ] |};
          UserAgent := str "ArXiv-Go-Nest/1.0" |} in
     sent (FetchNew c params w).2 = sent w ++ [req]
     ∧ match (FetchNew c params w).1 with
       | inl feed =>
           slept (FetchNew c params w).2 = slept w ++ [rateLimitDelay c]
           ∧ ∃ resp, transport req = inl resp ∧ StatusCode resp = 200%Z
                     ∧ xml_Decode (Body resp) = Some feed
       | inr _ => slept (FetchNew c params w).2 = slept w
       end)
  ∧ (∀ id ids,
       let req := id_list_request Values_Encode (id :: ids) in
       sent (FetchByIDs c (id :: ids) w).2 = sent w ++ [req]
       ∧ match (FetchByIDs c (id :: ids) w).1 with
         | inl feed =>
             slept (FetchByIDs c (id :: ids) w).2
             = slept w ++ [rateLimitDelay c]
             ∧ ∃ resp, transport req = inl resp ∧ StatusCode resp = 200%Z
                       ∧ xml_Decode (Body resp) = Some feed
         | inr _ => slept (FetchByIDs c (id :: ids) w).2 = slept w
         end).
Proof.
  split.
  - intros params. apply request_outcome.
  - intros id ids. apply request_outcome.
Qed.

End FetchFacts.

(** ** One ingestion cycle *)
Section IngestFacts.
Import db ingest.

Variable transport : client.Request -> client.Response + list ascii.
Variable Values_Encode : list (list ascii * list ascii) -> list ascii.
Variable xml_Decode : list ascii -> option parser.Feed.
Variable Sprintf_d : Z -> list ascii.
Variable time_Parse : list ascii -> list ascii -> option models.Time.
Variable clock : nat -> models.Time.

Local Abbreviation upsert_range := (ingest.upsert_range clock).
Local Abbreviation fetchPapers :=
  (ingest.fetchPapers transport Values_Encode xml_Decode Sprintf_d time_Parse
     clock).

Lemma upsert_range_app l1 : ∀ l2 i d n,
  upsert_range i (l1 ++ l2) d n
  = upsert_range (i + length l1) l2 (upsert_range i l1 d n).1
      (upsert_range i l1 d n).2.
Proof.
  induction l1 as [|p l1 IH]; intros l2 i d n; simpl.
  - by rewrite Nat.add_0_r.
  - rewrite IH. by replace (S i + length l1)%nat with (i + S (length l1))%nat
      by lia.
Qed.

Lemma upsert_range_count ps : ∀ i d n,
  (upsert_range i ps d n).2 = (n + length ps)%nat.
Proof.
  induction ps as [|p ps IH]; intros i d n; simpl; [lia|].
  rewrite IH. lia.
Qed.

Lemma upsert_range_frame ps : ∀ i d n,
  library (upsert_range i ps d n).1 = library d
  ∧ tags (upsert_range i ps d n).1 = tags d
  ∧ paper_tags (upsert_range i ps d n).1 = paper_tags d.
Proof.
  induction ps as [|p ps IH]; intros i d n; simpl; [done|].
  destruct (IH (S i) (UpsertPaper (clock i) p d) (S n)) as (-> & -> & ->).
  done.
Qed.

Lemma upsert_range_other ps id : ∀ i d n,
  Forall (fun p => models.ID p ≠ id) ps →
  papers (upsert_range i ps d n).1 !! id = papers d !! id.
Proof.
  induction ps as [|p ps IH]; intros i d n Hps; simpl; [done|].
  apply Forall_cons in Hps as [Hp Hps]. rewrite IH by done. simpl.
  by rewrite lookup_insert_ne.
Qed.

Lemma upsert_range_created ps id : ∀ i d n old,
  papers d !! id = Some old →
  ∃ row, papers (upsert_range i ps d n).1 !! id = Some row
         ∧ created_at row = created_at old.
Proof.
  induction ps as [|p ps IH]; intros i d n old Hold; simpl; [eauto|].
  destruct (decide (models.ID p = id)) as [<-|Hne].
  - edestruct (IH (S i) (UpsertPaper (clock i) p d) (S n)) as (row & Hrow & Hc).
    { simpl. apply lookup_insert_eq. }
    exists row. split; [done|]. rewrite Hc. simpl. by rewrite Hold.
  - apply IH. simpl. by rewrite lookup_insert_ne.
Qed.

(** The batch of upserts: the counter is the number of papers; of several
    papers with one id the last one is what the store holds afterwards,
    with the creation time of the row that was there before the batch;
    rows of other ids and the curation tables are as before. *)
Theorem upsert_range_last_writer_wins (before after : list models.Paper)
    (paper : models.Paper) (d : DB) :
  Forall (fun p => models.ID p ≠ models.ID paper) after →
  let result := upsert_range 0 (before ++ paper :: after) d 0 in
  result.2 = length (before ++ paper :: after)
  ∧ (∃ row, papers result.1 !! models.ID paper = Some row
            ∧ title row = models.Title paper
            ∧ abstract row = models.Abstract paper
            ∧ authors row = models.Authors paper
            ∧ categories row = models.Categories paper
            ∧ published_at row = models.PublishedAt paper
            ∧ updated_at row = models.UpdatedAt paper
            ∧ pdf_url row = models.PDFUrl paper
            ∧ arxiv_url row = models.ArxivUrl paper
            ∧ (∀ old, papers d !! models.ID paper = Some old →
                      created_at row = created_at old))
  ∧ (∀ id, Forall (fun p => models.ID p ≠ id) (before ++ paper :: after) →
           papers result.1 !! id = papers d !! id)
  ∧ library result.1 = library d
  ∧ tags result.1 = tags d
  ∧ paper_tags result.1 = paper_tags d.
Proof.
  intros Hafter. cbv zeta. split_and!.
  - by rewrite upsert_range_count.
  - rewrite upsert_range_app. cbn [ingest.upsert_range].
    rewrite upsert_range_other by done. simpl. rewrite lookup_insert_eq.
    eexists. split; [reflexivity|]. simpl. split_and!; try done.
    intros old Hold.
    destruct (upsert_range_created before _ 0%nat d 0%nat old Hold)
      as (row & -> & Hc).
    done.
  - intros id Hid. by apply upsert_range_other.
  - apply upsert_range_frame.
  - apply upsert_range_frame.
  - apply upsert_range_frame.
Qed.

(** A cycle sends one request, the search of the configured categories
    and keywords, newest submissions first, and never touches the
    curation tables.  What it does is decided by the answer to that
    request.  When the transport fails, the status is not 200 or the body
    does not decode, the cycle reports that error, the store is exactly as
    before and no delay was slept.  When the answer has status 200 and
    decodes to a feed, the rate-limit delay is slept once, the store is
    the batch of upserts of the papers of that feed that convert, in feed
    order, and the count that is logged is the number of those papers.
    The branch for an error of [ToPapers] is never taken. *)
Theorem fetchPapers_cycle (cfg : config.Config) (w : client.World) (d : DB) :
  let req :=
    {| client.Method := str "GET";
       client.Req_URL :=
         {| client.Base := client.apiBaseURL;
            client.RawQuery :=
              Values_Encode
                [ (str "search_query",
                   client.buildSearchQuery
                     (config.Categories (config.ArXiv cfg))
                     (config.Keywords (config.ArXiv cfg)));
                  (str "max_results",
                   Sprintf_d (config.MaxResults (config.ArXiv cfg)));
                  (str "sortBy", str "submittedDate");
                  (str "sortOrder", str "descending") ] |};
       client.UserAgent := str "ArXiv-Go-Nest/1.0" |} in
  let result := fetchPapers cfg w d in
  client.sent result.1.1 = client.sent w ++ [req]
  ∧ library result.1.2 = library d
  ∧ tags result.1.2 = tags d
  ∧ paper_tags result.1.2 = paper_tags d
  ∧ match transport req with
    | inr e =>
        result.2 = FetchError (client.ErrExecute e)
        ∧ result.1.2 = d ∧ client.slept result.1.1 = client.slept w
    | inl resp =>
        if (client.StatusCode resp =? 200)%Z then
          match xml_Decode (client.Body resp) with
          | None =>
              result.2
              = FetchError (client.ErrParseFeed parser.ErrDecodeXML)
              ∧ result.1.2 = d ∧ client.slept result.1.1 = client.slept w
          | Some feed =>
              result.2
              = Stored (length (spec.converted time_Parse
                                  (parser.Entries feed)))
              ∧ result.1.2
                = (upsert_range 0
                     (spec.converted time_Parse (parser.Entries feed))
                     d 0).1
              ∧ client.slept result.1.1
                = client.slept w
                  ++ [config.RateLimitDelay (config.ArXiv cfg)]
          end
        else
          result.2
          = FetchError (client.ErrStatus (client.StatusCode resp)
                          (client.Body resp))
          ∧ result.1.2 = d ∧ client.slept result.1.1 = client.slept w
    end.
Proof.
  cbv zeta. unfold ingest.fetchPapers.
  rewrite (FetchNew_answer transport Values_Encode xml_Decode Sprintf_d).
  cbv zeta. cbn [client.SortBy client.SortOrder client.Categories
                 client.Keywords client.MaxResults client.rateLimitDelay
                 client.NewClient].
  rewrite !decide_False by done.
  destruct (transport _) as [resp|e]; [|done].
  destruct (client.StatusCode resp =? 200)%Z; [|done].
  destruct (xml_Decode (client.Body resp)) as [feed|]; [|done].
  rewrite ToPapers_spec.
  destruct (ingest.upsert_range clock 0 _ d 0) as [d' count] eqn:Hbatch.
  pose proof (upsert_range_frame
                (spec.converted time_Parse (parser.Entries feed)) 0 d 0)
    as (Hlib & Htags & Hpt).
  pose proof (upsert_range_count
                (spec.converted time_Parse (parser.Entries feed)) 0 d 0)
    as Hcount.
  rewrite Hbatch in Hlib, Htags, Hpt, Hcount. simpl in *.
  split_and!; try done. by rewrite Hcount.
Qed.

End IngestFacts.

(** ** Configuration *)
Section ConfigFacts.
Import config.

Variable os_ReadFile : list ascii -> read_result.
Variable yaml_Unmarshal : list ascii -> Config -> option Config.
Variable Sscanf_d : list ascii -> option Z.

(** Environment variables take precedence over the file and the defaults:
    a non-empty [SERVER_HOST] or [DB_PATH] is the host or path of the
    loaded configuration, and a non-empty [SERVER_PORT] that scans as an
    integer is its port, while one that does not scan is ignored.  The
    environment decides neither whether [Load] fails nor the categories,
    keywords, fetch interval and rate-limit delay: these are the same
    under any two environments. *)
Theorem Load_environment (path : list ascii)
    (env env' : list ascii -> list ascii) :
  (∀ cfg, Load os_ReadFile yaml_Unmarshal env Sscanf_d path = inl cfg →
     (env (str "SERVER_HOST") ≠ [] →
      Host (Server cfg) = env (str "SERVER_HOST"))
     ∧ (env (str "DB_PATH") ≠ [] → Path (Database cfg) = env (str "DB_PATH"))
     ∧ (∀ n, env (str "SERVER_PORT") ≠ [] →
             Sscanf_d (env (str "SERVER_PORT")) = Some n →
             Port (Server cfg) = n)
     ∧ ∃ cfg', Load os_ReadFile yaml_Unmarshal env' Sscanf_d path = inl cfg'
               ∧ Categories (ArXiv cfg') = Categories (ArXiv cfg)
               ∧ Keywords (ArXiv cfg') = Keywords (ArXiv cfg)
               ∧ FetchInterval (ArXiv cfg') = FetchInterval (ArXiv cfg)
               ∧ RateLimitDelay (ArXiv cfg') = RateLimitDelay (ArXiv cfg)
               ∧ (env' (str "SERVER_PORT") = [] ∨
                  Sscanf_d (env' (str "SERVER_PORT")) = None →
                  env (str "SERVER_PORT") = [] →
                  Port (Server cfg') = Port (Server cfg)))
  ∧ (∀ err, Load os_ReadFile yaml_Unmarshal env Sscanf_d path = inr err →
            Load os_ReadFile yaml_Unmarshal env' Sscanf_d path = inr err).
Proof.
  unfold Load. split.
  - intros cfg.
    destruct (if decide (path = []) then _ else _) as [base|err];
      [|discriminate].
    intros [= <-]. simpl. unfold env_string, env_int. split_and!.
    + intros Hne. by rewrite decide_False.
    + intros Hne. by rewrite decide_False.
    + intros n Hne Hn. by rewrite decide_False, Hn.
    + eexists. split; [reflexivity|]. simpl. split_and!; try done.
      intros Hbad Hempty. rewrite (decide_True _ _ Hempty).
      unfold env_int. case_decide; [done|].
      destruct Hbad as [Hbad|Hbad]; [done|]. by rewrite Hbad.
  - intros err.
    destruct (if decide (path = []) then _ else _) as [base|err'];
      [discriminate|done].
Qed.

End ConfigFacts.

(** ** Scheduler: what every run keeps *)
Section CadenceFacts.
Import scheduler.

Lemma cycle_starts_app l1 l2 :
  cycle_starts (l1 ++ l2) = cycle_starts l1 ++ cycle_starts l2.
Proof. apply omap_app. Qed.

Lemma alternates_app l1 : ∀ l2 b,
  alternates b (l1 ++ l2) = alternates b l1 ≫= fun b' => alternates b' l2.
Proof.
  induction l1 as [|[t o] l1 IH]; intros l2 b; [done|]. simpl.
  destruct o, b; simpl; by rewrite ?IH.
Qed.

Lemma alternates_step interval e s s' :
  step interval e s = Some s' →
  alternates false (log s) = Some (in_cycle s) →
  alternates false (log s') = Some (in_cycle s').
Proof.
  unfold in_cycle. intros Hstep Hinv. destruct e; simpl in Hstep.
  - destruct (0 <=? d)%Z; [|done]. by injection Hstep as <-.
  - destruct (negb (ticker_stopped s) && (next_tick s <=? now s)%Z); [|done].
    by injection Hstep as <-.
  - destruct (stopChan_closed s); [done|]. injection Hstep as <-. simpl.
    rewrite alternates_app, Hinv. simpl. by destruct (at_pc s).
  - destruct (at_pc s) eqn:Hpc; try done.
    destruct (wake_at s <=? now s)%Z; [|done]. injection Hstep as <-.
    simpl. by rewrite alternates_app, Hinv.
  - destruct (at_pc s) eqn:Hpc; try done. injection Hstep as <-.
    simpl. by rewrite alternates_app, Hinv.
  - destruct (at_pc s) eqn:Hpc; try done.
    destruct (ticker_C s); [|done]. injection Hstep as <-.
    simpl. by rewrite alternates_app, Hinv.
  - destruct (at_pc s) eqn:Hpc; try done.
    destruct (stopChan_closed s); [|done]. by injection Hstep as <-.
Qed.

(** Cycles never overlap: in the log of every run of the scheduler the
    starts and ends of cycles alternate, beginning with a start, and a
    cycle is open at the end exactly when the goroutine is in
    [fetchPapers]. *)
Theorem cycles_never_overlap (interval : Z) (es : list event) (s : state) :
  run interval es (start interval) = Some s →
  alternates false (log s) = Some (in_cycle s).
Proof.
  assert (∀ s0, alternates false (log s0) = Some (in_cycle s0) →
                run interval es s0 = Some s →
                alternates false (log s) = Some (in_cycle s)) as Hrun.
  { induction es as [|e es IH]; intros s0 Hinv; simpl.
    - by intros [= <-].
    - destruct (step interval e s0) as [s1|] eqn:Hstep; [|done].
      apply IH. by eapply alternates_step. }
  by apply Hrun.
Qed.

Lemma cadence_start interval :
  (0 ≤ interval)%Z → spec.cadence interval 0 (start interval).
Proof.
  intros Hint. unfold spec.cadence, start, Second. simpl.
  split_and!; try done; try lia.
Qed.

Lemma cadence_log interval k s s' :
  spec.cadence interval k s →
  wake_at s' = wake_at s → next_tick s' = next_tick s →
  (now s ≤ now s')%Z → ticker_C s' = ticker_C s →
  cycle_starts (log s') = cycle_starts (log s) →
  (at_pc s = Sleeping ↔ at_pc s' = Sleeping) →
  spec.cadence interval k s'.
Proof.
  intros (H1 & H2 & H3 & H4 & H5 & H6 & H7 & H8) Hw Hn Hnow Hc Hlog Hpc.
  unfold spec.cadence. rewrite Hw, Hn, Hc, Hlog.
  split_and!; try done; try lia.
  - by rewrite <- Hpc.
  - intros Hne. assert (at_pc s ≠ Sleeping) as Hne' by (by rewrite Hpc).
    apply H6 in Hne'. lia.
  - intros n t Hnt. destruct (H8 n t Hnt) as (? & ? & ?).
    split_and!; try done. lia.
Qed.

Lemma cadence_step interval k e s s' :
  (0 ≤ interval)%Z → spec.cadence interval k s →
  step interval e s = Some s' → ∃ k', spec.cadence interval k' s'.
Proof.
  intros Hint Hinv Hstep.
  pose proof Hinv as (H1 & H2 & H3 & H4 & H5 & H6 & H7 & H8).
  destruct e; simpl in Hstep.
  - destruct (0 <=? d)%Z eqn:Hd; [|done]. apply Z.leb_le in Hd.
    injection Hstep as <-. exists k.
    apply (cadence_log interval k s); simpl; try done. lia.
  - destruct (negb (ticker_stopped s) && (next_tick s <=? now s)%Z) eqn:Hg;
      [|done].
    apply andb_true_iff in Hg as [_ Hdue%Z.leb_le].
    injection Hstep as <-. exists (S k). unfold spec.cadence. simpl.
    split_and!; try done; try lia.
  - destruct (stopChan_closed s); [done|]. injection Hstep as <-. exists k.
    apply (cadence_log interval k s); simpl; try done.
    rewrite cycle_starts_app. simpl. apply app_nil_r.
  - destruct (at_pc s) eqn:Hpc; try done.
    destruct (wake_at s <=? now s)%Z eqn:Hw; [|done]. apply Z.leb_le in Hw.
    injection Hstep as <-. exists k.
    assert (cycle_starts (log s) = []) as Hnil by (by apply H5).
    unfold spec.cadence. simpl. rewrite cycle_starts_app, Hnil. simpl.
    rewrite Hnil in H7. simpl in H7.
    split_and!; try done; try lia.
    intros [|n] t; simpl; [|done]. intros [= <-]. lia.
  - destruct (at_pc s) eqn:Hpc; try done. injection Hstep as <-. exists k.
    assert (at_pc s ≠ Sleeping) as Hne by (by rewrite Hpc).
    unfold spec.cadence. simpl. rewrite cycle_starts_app. simpl.
    rewrite app_nil_r. split_and!; try done.
    + split; [done|]. intros Hnil. by apply H5 in Hnil.
    + intros _. by apply H6.
  - destruct (at_pc s) eqn:Hpc; try done.
    destruct (ticker_C s) eqn:Hc; [|done]. injection Hstep as <-. exists k.
    assert (at_pc s ≠ Sleeping) as Hne by (by rewrite Hpc).
    assert (cycle_starts (log s) ≠ []) as Hcs.
    { intros Hnil. by apply H5 in Hnil. }
    assert (0 < length (cycle_starts (log s)))%nat as Hlen.
    { destruct (cycle_starts (log s)); [done|simpl; lia]. }
    assert (10 * Second ≤ now s)%Z as Hnow by (by apply H6).
    unfold spec.cadence. simpl. rewrite cycle_starts_app. simpl.
    rewrite length_app. simpl. split_and!; try done; try lia.
    + split; [done|]. by intros [_ ?]%app_eq_nil.
    + intros n t [Hold|[Hn Hnew]]%lookup_app_Some; [by apply H8|].
      destruct (n - length (cycle_starts (log s)))%nat eqn:Hidx; [|done].
      simpl in Hnew. injection Hnew as <-.
      split_and!; [done| |lia]. nia.
  - destruct (at_pc s) eqn:Hpc; try done.
    destruct (stopChan_closed s); [|done]. injection Hstep as <-. exists k.
    assert (at_pc s ≠ Sleeping) as Hne by (by rewrite Hpc).
    unfold spec.cadence. simpl. split_and!; try done.
    + split; [done|]. intros Hnil. by apply H5 in Hnil.
    + intros _. by apply H6.
Qed.

(** The cadence of every run of the scheduler with a positive fetch
    interval ([time.NewTicker] panics on any other): no cycle starts
    before the warm-up delay of ten seconds is over, and the [n]-th cycle
    after the first does not start before [n] intervals have passed since
    [startScheduler] (ticks that find the channel full are dropped, never
    made up for). *)
Theorem cycle_cadence (interval : Z) (es : list event) (s : state) :
  (0 < interval)%Z →
  run interval es (start interval) = Some s →
  ∀ n t, cycle_starts (log s) !! n = Some t →
         (10 * Second ≤ t)%Z ∧ (Z.of_nat n * interval ≤ t)%Z
         ∧ (t ≤ now s)%Z.
Proof.
  intros Hint%Z.lt_le_incl.
  assert (∀ s0 k, spec.cadence interval k s0 →
                  run interval es s0 = Some s →
                  ∃ k', spec.cadence interval k' s) as Hrun.
  { induction es as [|e es IH]; intros s0 k Hinv; simpl.
    - intros [= <-]. eauto.
    - destruct (step interval e s0) as [s1|] eqn:Hstep; [|done].
      destruct (cadence_step interval k e s0 s1 Hint Hinv Hstep) as [k' Hk'].
      by apply (IH s1 k'). }
  intros Hs. destruct (Hrun _ 0%nat (cadence_start interval Hint) Hs)
    as (k & _ & _ & _ & _ & _ & _ & _ & Hcs).
  apply Hcs.
Qed.

Lemma returned_step interval e s s' :
  at_pc s = Returned → ticker_stopped s = true →
  step interval e s = Some s' →
  at_pc s' = Returned ∧ ticker_stopped s' = true
  ∧ ticker_C s' = ticker_C s
  ∧ cycle_starts (log s') = cycle_starts (log s).
Proof.
  intros Hpc Hstopped. destruct e; simpl; rewrite ?Hpc, ?Hstopped; simpl;
    try done.
  - destruct (0 <=? d)%Z; [|done]. by intros [= <-].
  - destruct (stopChan_closed s); [done|]. intros [= <-]. simpl.
    split_and!; try done. rewrite cycle_starts_app. apply app_nil_r.
Qed.

Lemma returned_stopped_step interval e s s' :
  (at_pc s = Returned → ticker_stopped s = true ∧ stopChan_closed s = true) →
  step interval e s = Some s' →
  at_pc s' = Returned → ticker_stopped s' = true ∧ stopChan_closed s' = true.
Proof.
  intros Hinv. destruct e; simpl.
  - destruct (0 <=? d)%Z; [|done]. by intros [= <-].
  - destruct (negb (ticker_stopped s) && (next_tick s <=? now s)%Z) eqn:Hg;
      [|done].
    intros [= <-]. simpl. intros Hpc. destruct (Hinv Hpc) as [Hs _].
    by rewrite Hs in Hg.
  - destruct (stopChan_closed s) eqn:Hc; [done|]. intros [= <-]. simpl.
    intros Hpc. destruct (Hinv Hpc) as [_ ?]. congruence.
  - destruct (at_pc s); try done.
    destruct (wake_at s <=? now s)%Z; [|done]. by intros [= <-].
  - destruct (at_pc s); try done. by intros [= <-].
  - destruct (at_pc s); try done. destruct (ticker_C s); [|done].
    by intros [= <-].
  - destruct (at_pc s); try done.
    destruct (stopChan_closed s) eqn:Hc; [|done]. by intros [= <-].
Qed.

(** Once the goroutine has taken the stop case of the select it has
    returned for good: whatever happens afterwards, no cycle starts, the
    ticker stays stopped and delivers no tick.  And it only returns after
    the stop function was called. *)
Theorem no_cycle_after_return (interval : Z) (es es' : list event)
    (s s' : state) :
  run interval es (start interval) = Some s →
  at_pc s = Returned →
  run interval es' s = Some s' →
  stopChan_closed s = true
  ∧ at_pc s' = Returned
  ∧ ticker_stopped s' = true
  ∧ ticker_C s' = ticker_C s
  ∧ cycle_starts (log s') = cycle_starts (log s).
Proof.
  intros Hs Hpc Hs'.
  assert (ticker_stopped s = true ∧ stopChan_closed s = true)
    as [Hstopped Hclosed].
  { assert (∀ s0, (at_pc s0 = Returned →
                   ticker_stopped s0 = true ∧ stopChan_closed s0 = true) →
                  run interval es s0 = Some s →
                  at_pc s = Returned →
                  ticker_stopped s = true ∧ stopChan_closed s = true)
      as Hrun.
    { clear Hs. induction es as [|e es IH]; intros s0 Hinv; simpl.
      - by intros [= <-].
      - destruct (step interval e s0) as [s1|] eqn:Hstep; [|done].
        apply IH. by eapply returned_stopped_step. }
    by apply (Hrun (start interval)). }
  split; [done|]. clear Hs Hclosed. revert s Hpc Hstopped Hs'.
  induction es' as [|e es' IH]; intros s Hpc Hstopped; simpl.
  - by intros [= <-].
  - destruct (step interval e s) as [s1|] eqn:Hstep; [|done].
    destruct (returned_step interval e s s1 Hpc Hstopped Hstep)
      as (Hpc1 & Hstopped1 & Hc1 & Hlog1).
    intros Hs'. destruct (IH s1 Hpc1 Hstopped1 Hs') as (? & ? & ? & ?).
    split_and!; try done; congruence.
Qed.

End CadenceFacts.

Section HandlerFacts.
Import db server.

Lemma int_id (z : Z) : (- 2 ^ 63 ≤ z < 2 ^ 63)%Z → int z = z.
Proof. intros Hz. unfold int. rewrite Z.mod_small; lia. Qed.

Lemma CreateTag_cases (name : list ascii) (d : DB) :
  names_unique d →
  ∃ id d1, CreateTag name d = (id, d1)
           ∧ tags d1 !! id = Some name
           ∧ names_unique d1
           ∧ papers d1 = papers d ∧ library d1 = library d
           ∧ paper_tags d1 = paper_tags d
           ∧ (∀ i n, tags d !! i = Some n → tags d1 !! i = Some n)
           ∧ (∀ i n, tags d1 !! i = Some n →
                     tags d !! i = Some n ∨ (i = id ∧ n = name)).
Proof.
  intros Huniq. unfold CreateTag.
  destruct (tag_by_name name d) as [id|] eqn:Hby.
  - exists id, d. pose proof (tag_by_name_Some _ _ _ Hby) as Hid.
    split_and!; try done. intros i n Hi. by left.
  - pose proof (next_tag_id_fresh d) as Hfresh.
    eexists _, _. split; [reflexivity|]. simpl. split_and!; try done.
    + by rewrite lookup_insert_eq.
    + intros i j n. simpl. rewrite !lookup_insert.
      repeat case_decide; subst; intros Hi Hj; simplify_eq; try done.
      * by apply (tag_by_name_None _ _ j) in Hby.
      * by apply (tag_by_name_None _ _ i) in Hby.
      * by eapply Huniq.
    + intros i n Hi. rewrite lookup_insert_ne; [done|]. intros <-.
      by rewrite Hfresh in Hi.
    + intros i n. rewrite lookup_insert. case_decide.
      * intros [= <-]. by right.
      * intros Hi. by left.
Qed.

(** [HandleAddTag] attaches the tag named by the trimmed form value.  A
    request without paper id, or whose tag name is empty after trimming,
    is answered with 400 and changes nothing.  Any other request is
    answered with 200 and the tags of the paper after the change: those it
    had before and the tag of that name, created if the vocabulary had
    none.  Exactly one association is added, papers and library are
    untouched, names stay unique, and repeating the request gives the same
    answer and changes nothing. *)
Theorem HandleAddTag_attaches_trimmed_name
    (FormValue : list ascii -> list ascii) (d : DB) :
  names_unique d →
  let paperID := FormValue (str "paper_id") in
  let name := strings.TrimSpace (FormValue (str "tag_name")) in
  let result := HandleAddTag (Some FormValue) d in
  (paperID = [] ∨ name = [] →
   Status result.1 = StatusBadRequest ∧ result.2 = d)
  ∧ (paperID ≠ [] → name ≠ [] →
     Status result.1 = StatusOK
     ∧ Body result.1 = TagSpans paperID (GetPaperTags paperID result.2)
     ∧ (∃ t, t ∈ GetPaperTags paperID result.2 ∧ models.Tag_Name t = name
             ∧ paper_tags result.2
               = {[ (paperID, models.Tag_ID t) ]} ∪ paper_tags d)
     ∧ (∀ t, t ∈ GetPaperTags paperID result.2 ↔
             t ∈ GetPaperTags paperID d
             ∨ (models.Tag_Name t = name
                ∧ tags result.2 !! models.Tag_ID t = Some name))
     ∧ (∀ i n, tags d !! i = Some n → tags result.2 !! i = Some n)
     ∧ names_unique result.2
     ∧ papers result.2 = papers d
     ∧ library result.2 = library d
     ∧ HandleAddTag (Some FormValue) result.2 = result).
Proof.
  intros Huniq paperID name result. subst result. unfold HandleAddTag.
  fold paperID. fold name. split.
  - intros Hempty. by rewrite decide_True.
  - intros Hpaper Hname. rewrite !decide_False by (by intros [?|?]).
    destruct (CreateTag_cases name d Huniq)
      as (id & d1 & Hcreate & Hid & Huniq1 & Hpapers & Hlib & Hpt & Hkeep
          & Hnew).
    rewrite Hcreate. cbn [fst snd Status Body].
    assert (names_unique (TagPaper paperID id d1)) as Huniq2 by done.
    assert (CreateTag name (TagPaper paperID id d1)
            = (id, TagPaper paperID id d1)) as Hagain.
    { unfold CreateTag.
      by rewrite (tag_by_name_unique name _ id Huniq2 Hid). }
    split_and!; try done.
    + exists {| models.Tag_ID := id; models.Tag_Name := name |}.
      split_and!; [|done|by simpl; rewrite Hpt].
      apply elem_of_GetPaperTags. simpl. split; [|done].
      apply elem_of_union. left. by apply elem_of_singleton.
    + intros t. rewrite !elem_of_GetPaperTags. simpl.
      rewrite Hpt, elem_of_union, elem_of_singleton. split.
      * intros [[[= Heq]|Hin] Ht].
        -- right. rewrite Heq in Ht. rewrite Hid in Ht.
           injection Ht as <-. by rewrite Heq.
        -- destruct (Hnew _ _ Ht) as [Hold|[Heq Hn]]; [by left|].
           right. rewrite Heq. by rewrite Hn.
      * intros [[Hin Ht]|[Hn Ht]].
        -- split; [by right|]. by apply Hkeep.
        -- assert (models.Tag_ID t = id) as -> by (by eapply Huniq1).
           split; [by left|]. by rewrite Hn.
    + rewrite Hagain. cbn [fst snd]. f_equal.
      * f_equal. f_equal. unfold TagPaper. simpl. f_equal.
        by rewrite (assoc_L (∪)), (idemp_L (∪)).
      * unfold TagPaper. simpl. f_equal.
        by rewrite (assoc_L (∪)), (idemp_L (∪)).
Qed.

(** [HandleRemoveTag] detaches the tag whose id the form gives and
    answers with the tags that are left; the tag stays in the vocabulary.
    On the store that [HandleAddTag] left, removing the tag that was
    attached gives back the associations of a paper that did not have it.
    A tag id that does not scan is answered with 400 and changes
    nothing. *)
Theorem HandleRemoveTag_detaches (Atoi : list ascii -> option Z)
    (FormValue : list ascii -> list ascii) (d : DB) :
  let paperID := FormValue (str "paper_id") in
  let result := HandleRemoveTag Atoi (Some FormValue) d in
  (Atoi (FormValue (str "tag_id")) = None →
   Status result.1 = StatusBadRequest ∧ result.2 = d)
  ∧ (∀ tagID, Atoi (FormValue (str "tag_id")) = Some tagID →
       Status result.1 = StatusOK
       ∧ Body result.1 = TagSpans paperID (GetPaperTags paperID result.2)
       ∧ (∀ t, t ∈ GetPaperTags paperID result.2 ↔
               t ∈ GetPaperTags paperID d ∧ models.Tag_ID t ≠ tagID)
       ∧ tags result.2 = tags d
       ∧ GetAllTags result.2 = GetAllTags d
       ∧ (∀ F added,
            names_unique added →
            d = (HandleAddTag (Some F) added).2 →
            F (str "paper_id") = paperID → paperID ≠ [] →
            strings.TrimSpace (F (str "tag_name")) ≠ [] →
            tags d !! tagID = Some (strings.TrimSpace (F (str "tag_name"))) →
            (paperID, tagID) ∉ paper_tags added →
            paper_tags result.2 = paper_tags added
            ∧ ∀ t, t ∈ GetPaperTags paperID result.2 ↔
                   t ∈ GetPaperTags paperID added)).
Proof.
  intros paperID result. subst result. unfold HandleRemoveTag.
  fold paperID. split.
  - by intros ->.
  - intros tagID ->. cbn [fst snd Status Body]. split_and!; try done.
    + intros t. rewrite !elem_of_GetPaperTags. simpl.
      rewrite elem_of_difference, elem_of_singleton. split.
      * intros [[Hin Hne] Ht]. split; [done|]. intros Heq. apply Hne.
        by rewrite Heq.
      * intros [[Hin Ht] Hne]. split; [|done]. split; [done|].
        by intros [= ?].
    + intros F added Huniq Hd HF Hpaper Hne Hname Hfresh.
      unfold HandleAddTag in Hd. rewrite HF in Hd.
      rewrite decide_False in Hd by (by intros [?|?]).
      destruct (CreateTag_cases (strings.TrimSpace (F (str "tag_name")))
                  added Huniq)
        as (id & d1 & Hcreate & Hid & Huniq1 & _ & _ & Hpt & Hkeep & Hnew).
      rewrite Hcreate in Hd. cbn [snd] in Hd. subst d. simpl in Hname.
      assert (id = tagID) as -> by (by eapply Huniq1).
      assert (paper_tags (TagPaper paperID tagID d1)
                ∖ {[ (paperID, tagID) ]} = paper_tags added) as Hback.
      { simpl. rewrite Hpt. apply set_eq. intros x.
        rewrite elem_of_difference, elem_of_union, elem_of_singleton.
        split; [by intros [[->|?] ?]|]. intros Hx. split; [by right|].
        by intros ->. }
      split; [exact Hback|]. intros t. rewrite !elem_of_GetPaperTags.
      cbn [paper_tags tags UntagPaper]. rewrite Hback.
      cbn [tags TagPaper]. split.
      * intros [Hin Ht]. split; [done|].
        destruct (Hnew _ _ Ht) as [Hold|[Heq _]]; [done|].
        by rewrite Heq in Hin.
      * intros [Hin Ht]. split; [done|]. by apply Hkeep.
Qed.

(** [HandleToggleRead] always executes the toggle and then reports the
    flag it reads back: a paper of the library gets the button of the
    negated flag; a paper that is not in the library is answered with
    200 and the unread button while nothing changes; an id without a row
    in [papers] is answered with 500.  Two requests restore the store. *)
Theorem HandleToggleRead_reports_new_flag (id : list ascii) (d : DB) :
  let result := HandleToggleRead id d in
  result.2 = ToggleRead id d
  ∧ (papers d !! id = None →
     Status result.1 = StatusInternalServerError)
  ∧ (∀ paper row, papers d !! id = Some paper →
       library d !! id = Some row →
       Status result.1 = StatusOK
       ∧ Body result.1 = (if is_read row then MarkAsReadButton id
                          else ReadButton id))
  ∧ (∀ paper, papers d !! id = Some paper → library d !! id = None →
       result = ({| Status := StatusOK; Body := MarkAsReadButton id |}, d))
  ∧ (HandleToggleRead id result.2).2 = d.
Proof.
  intros result. subst result. unfold HandleToggleRead, GetPaperByID.
  cbn [papers ToggleRead].
  assert (ToggleRead id (ToggleRead id d) = d) as Htwice.
  { apply DB_eq; try done. simpl. apply map_eq. intros k.
    rewrite !lookup_alter. repeat case_decide; try done. subst k.
    destruct (library d !! id) as [[r t]|]; simpl; [|done].
    by rewrite negb_involutive. }
  split_and!.
  - by destruct (papers d !! id).
  - by intros ->.
  - intros paper row -> Hrow. cbn [fst Status Body library ToggleRead].
    rewrite lookup_alter, decide_True, Hrow by done. simpl.
    split; [done|]. by destruct (is_read row).
  - intros paper -> Hnone. cbn [library ToggleRead].
    rewrite lookup_alter, decide_True, Hnone by done. simpl. f_equal.
    destruct d as [ps lib tgs pts]. unfold ToggleRead. simpl in *. f_equal.
    apply map_eq. intros k. rewrite lookup_alter. case_decide; [|done].
    subst. by rewrite Hnone.
  - destruct (papers d !! id) eqn:Hp; cbn [snd];
      unfold ToggleRead at 1; cbn [papers]; rewrite Hp; cbn [snd];
      apply Htwice.
Qed.

Lemma pages_concat {A : Type} (k : nat) :
  ∀ (m : nat) (rows : list A),
    (length rows ≤ m * k)%nat →
    concat ((fun i => take k (drop (i * k) rows)) <$> seq 0 m) = rows.
Proof.
  induction m as [|m IH]; intros rows Hlen.
  - by destruct rows; [|simpl in Hlen; lia].
  - change (seq 0 (S m)) with (0%nat :: seq 1 m).
    rewrite fmap_cons. cbn [concat Nat.mul]. rewrite drop_0.
    rewrite <- fmap_S_seq, <- list_fmap_compose.
    trans (take k rows ++ drop k rows); [|apply take_drop]. f_equal.
    rewrite <- (IH (drop k rows)) by (rewrite length_drop; lia).
    apply (f_equal (@concat A)), list_fmap_ext. intros _ i _. simpl.
    by rewrite drop_drop.
Qed.

(** Paging shows every result once.  With a positive page size, over a
    result of [total] rows in a fixed order, [totalPages] is the least
    number of pages that hold them; it is zero exactly for an empty
    result; the pages 1 to [totalPages], cut out by the limit and offset
    of [GetPapers], are not empty and make up the result in order; every
    later page is empty.  The page number that [getIntParam] reads is at
    least one.  A page size of zero makes the handler panic. *)
Theorem pages_partition_results {A : Type} (rows : list A) (pageSize : Z) :
  let total := Z.of_nat (length rows) in
  let page := fun p => limit_offset pageSize (offset p pageSize) rows in
  ((0 < pageSize)%Z → (total + pageSize < 2 ^ 63)%Z →
   ∃ n, totalPages total pageSize = Some n
        ∧ ((n - 1) * pageSize < total ≤ n * pageSize)%Z
        ∧ (n = 0%Z ↔ rows = [])
        ∧ concat ((fun i => page (Z.of_nat (S i))) <$> seq 0 (Z.to_nat n))
          = rows
        ∧ (∀ p, (1 ≤ p ≤ n)%Z →
                page p ≠ [] ∧ (length (page p) ≤ Z.to_nat pageSize)%nat)
        ∧ (∀ p, (n < p)%Z → (p * pageSize < 2 ^ 63)%Z → page p = []))
  ∧ totalPages total 0 = None
  ∧ (∀ Atoi query key, (1 ≤ getIntParam Atoi query key 1)%Z).
Proof.
  intros total page. split_and!.
  - intros Hps Hrange. unfold totalPages.
    assert (0 ≤ total)%Z as Htotal by (unfold total; lia).
    destruct (Z.eqb_spec pageSize 0) as [->|_]; [lia|].
    rewrite (int_id (total + pageSize)) by lia.
    rewrite (int_id (total + pageSize - 1)) by lia.
    rewrite Z.quot_div_nonneg by lia.
    set (n := ((total + pageSize - 1) / pageSize)%Z).
    assert (0 ≤ n)%Z as Hn by (apply Z.div_pos; lia).
    assert ((n - 1) * pageSize < total ≤ n * pageSize)%Z as Hbounds.
    { pose proof (Z.div_mod (total + pageSize - 1) pageSize) as Hdm.
      pose proof (Z.mod_pos_bound (total + pageSize - 1) pageSize Hps).
      fold n in Hdm. nia. }
    rewrite (int_id n) by nia.
    assert (∀ p, (1 ≤ p)%Z → (p * pageSize < 2 ^ 63)%Z →
                 page p = take (Z.to_nat pageSize)
                            (drop (Z.to_nat (p - 1) * Z.to_nat pageSize)
                               rows)) as Hpage.
    { intros p Hp Hsmall. unfold page, limit_offset, offset.
      rewrite (int_id (p - 1)) by nia.
      rewrite (int_id ((p - 1) * pageSize)) by nia.
      destruct (Z.ltb_spec ((p - 1) * pageSize) 0); [nia|].
      destruct (Z.ltb_spec pageSize 0); [lia|].
      do 2 f_equal. nia. }
    exists n. split_and!; try done; try lia.
    + split.
      * intros Hzero. apply length_zero_iff_nil. nia.
      * intros ->. unfold total in *. simpl in *. nia.
    + trans (concat ((fun i => take (Z.to_nat pageSize)
                                 (drop (i * Z.to_nat pageSize) rows))
                       <$> seq 0 (Z.to_nat n)));
        [|apply pages_concat; nia].
      apply (f_equal (@concat A)), list_fmap_ext. intros j i Hi%lookup_seq.
      rewrite Hpage by nia. do 3 f_equal. lia.
    + intros p Hp. rewrite Hpage by nia. split.
      * intros Hnil%(f_equal length).
        rewrite length_take, length_drop in Hnil. simpl in Hnil. nia.
      * rewrite length_take. lia.
    + intros p Hp Hsmall. rewrite Hpage by nia.
      rewrite drop_ge; [apply take_nil|]. unfold total in *. nia.
  - done.
  - intros Atoi query key. unfold getIntParam. case_decide; [lia|].
    destruct (Atoi (query key)) as [value|]; [|lia].
    destruct (Z.ltb_spec value 1); lia.
Qed.

End HandlerFacts.

Section Examples.

Lemma is_arxiv_id_2301_67890 : spec.is_arxiv_id (str "2301.67890").
Proof.
  exists (str "2301"), (str "67890").
  split_and!; [done|done|by right|apply digits_2301|repeat constructor].
Qed.

(** The tag of the test, attached to a paper and detached again. *)
Lemma TagPaper_UntagPaper_witness :
  let tag :=
    {| models.Tag_ID := 1; models.Tag_Name := str "machine-learning" |} in
  (tag ∈ db.GetPaperTags (str "2301.12345")
           (db.TagPaper (str "2301.12345") 1 testdata.tagged))
  ∧ (tag ∉ db.GetPaperTags (str "2301.12345")
             (db.UntagPaper (str "2301.12345") 1 testdata.tagged))
  ∧ db.UntagPaper (str "2301.12345") 1
      (db.TagPaper (str "2301.12345") 1 testdata.tagged) = testdata.tagged.
Proof.
  destruct (TagPaper_UntagPaper (str "2301.12345") 1
              (str "machine-learning") testdata.tagged)
    as (Hin & Hout & _ & Hundo & _); [vm_compute; reflexivity|].
  cbv zeta. split_and!; [exact Hin|exact Hout|].
  apply Hundo. vm_compute. set_solver.
Defined.

(** Creating the tag of the test in the empty store, twice. *)
Lemma CreateTag_get_or_create_witness :
  db.tags testdata.tagged !! (db.CreateTag (str "machine-learning") db.empty).1
  = Some (str "machine-learning")
  ∧ db.CreateTag (str "machine-learning") testdata.tagged
    = db.CreateTag (str "machine-learning") db.empty.
Proof.
  destruct (CreateTag_get_or_create (str "machine-learning") db.empty)
    as (Hid & _ & _ & _ & _ & Hagain & _).
  - intros i j name Hi. simpl in Hi. by rewrite lookup_empty in Hi.
  - split; [exact Hid|exact Hagain].
Defined.

(** The paper of the test, upserted into the curated store with another
    title. *)
Lemma GetPaperByID_UpsertPaper_witness :
  ∃ got, db.GetPaperByID (str "2301.12345")
           (db.UpsertPaper 200%Z (testdata.paper "New Title")
              testdata.curated) = inl got
         ∧ models.Title got = str "New Title"
         ∧ models.CreatedAt got = 100%Z
         ∧ models.InLibrary got = true
         ∧ models.IsRead got = true.
Proof.
  destruct (GetPaperByID_UpsertPaper 200%Z (testdata.paper "New Title")
              testdata.curated)
    as ((got & Hgot & _ & Htitle & _ & _ & _ & _ & _ & _ & _ & Hold & _)
        & _ & _).
  exists got.
  destruct (Hold (match db.GetPaperByID (str "2301.12345") testdata.curated
                  with inl p => p | inr _ => testdata.paper "" end))
    as (Hcreated & Hlib & Hread & _); [vm_compute; reflexivity|].
  split_and!; [exact Hgot|exact Htitle| | |].
  - rewrite Hcreated. vm_compute. reflexivity.
  - rewrite Hlib. vm_compute. reflexivity.
  - rewrite Hread. vm_compute. reflexivity.
Defined.

(** Saving the paper of the curated store again keeps its read flag;
    removing a fresh save restores the store. *)
Lemma SaveToLibrary_RemoveFromLibrary_witness :
  db.SaveToLibrary 900%Z (str "2301.12345") testdata.curated
  = testdata.curated
  ∧ db.RemoveFromLibrary (str "2301.67890")
      (db.SaveToLibrary 900%Z (str "2301.67890") testdata.curated)
    = testdata.curated.
Proof.
  destruct (SaveToLibrary_RemoveFromLibrary (str "2301.12345") 900%Z 900%Z
              testdata.curated) as (_ & Hsaved & _).
  destruct (SaveToLibrary_RemoveFromLibrary (str "2301.67890") 900%Z 900%Z
              testdata.curated) as (_ & _ & _ & Hfresh & _).
  split.
  - apply (Hsaved {| db.is_read := true; db.saved_at := 150%Z |}).
    vm_compute. reflexivity.
  - apply Hfresh. vm_compute. reflexivity.
Defined.

(** The paper of the curated store is read; toggling makes it unread. *)
Lemma ToggleRead_involutive_witness :
  db.library (db.ToggleRead (str "2301.12345") testdata.curated)
    !! str "2301.12345"
  = Some {| db.is_read := false; db.saved_at := 150%Z |}
  ∧ db.ToggleRead (str "2301.67890") testdata.curated = testdata.curated.
Proof.
  destruct (ToggleRead_involutive (str "2301.12345") testdata.curated)
    as (_ & _ & Hrow & _).
  destruct (ToggleRead_involutive (str "2301.67890") testdata.curated)
    as (_ & Hnone & _).
  split.
  - apply (Hrow {| db.is_read := true; db.saved_at := 150%Z |}).
    vm_compute. reflexivity.
  - apply Hnone. vm_compute. reflexivity.
Defined.

(** The id of the paper of the second test entry. *)
Lemma converted_id_is_canonical_witness :
  ∃ p, parser.ToPaper testdata.time_Parse testdata.entry2 = inl p
       ∧ spec.is_arxiv_id (models.ID p)
       ∧ parser.extractArxivID (models.ID p) = models.ID p.
Proof.
  eexists. split; [vm_compute; reflexivity|].
  destruct (converted_id_is_canonical testdata.time_Parse) as [Hid _].
  destruct (Hid testdata.entry2 _ eq_refl) as (_ & Hform & _ & Hfix).
  split; [exact Hform|exact Hfix].
Defined.

(** The visible text of the title of the second test entry. *)
Lemma cleanText_keeps_visible_text_witness :
  ∃ p, parser.ToPaper testdata.time_Parse testdata.entry2 = inl p
       ∧ filter (fun c => spec.visible c = true) (models.Title p)
         = str "Paper2".
Proof.
  eexists. split; [vm_compute; reflexivity|].
  destruct (cleanText_keeps_visible_text testdata.time_Parse) as [_ Htext].
  destruct (Htext testdata.entry2 _ eq_refl) as [Htitle _].
  etrans; [exact Htitle|]. vm_compute. reflexivity.
Defined.

(** The two versions of the second test entry. *)
Lemma versions_share_one_row_witness :
  ∃ p1 p2,
    parser.ToPaper testdata.time_Parse testdata.entry2 = inl p1
    ∧ parser.ToPaper testdata.time_Parse testdata.entry2_v2 = inl p2
    ∧ models.ID p1 = str "2301.67890" ∧ models.ID p2 = str "2301.67890"
    ∧ db.GetPaperCount (db.UpsertPaper 300%Z p2
                          (db.UpsertPaper 200%Z p1 testdata.curated))
      = db.GetPaperCount (db.UpsertPaper 200%Z p1 testdata.curated).
Proof.
  edestruct (versions_share_one_row testdata.time_Parse
               testdata.entry2 testdata.entry2_v2)
    with (id := str "2301.67890") (t1 := 200%Z) (t2 := 300%Z)
         (d := testdata.curated)
    as (Hid1 & Hid2 & Hcount & _).
  - exists (str "http://arxiv.org/abs/"), (str "v1").
    split_and!; [done|apply is_arxiv_id_2301_67890|].
    right. exists (str "1"). split_and!; [done|done|repeat constructor].
  - exists (str "http://arxiv.org/abs/"), (str "v2").
    split_and!; [done|apply is_arxiv_id_2301_67890|].
    right. exists (str "2"). split_and!; [done|done|repeat constructor].
  - reflexivity.
  - reflexivity.
  - eexists _, _.
    split_and!; [reflexivity|reflexivity|exact Hid1|exact Hid2|exact Hcount].
Defined.

(** A batch with the paper of the test under two titles. *)
Lemma upsert_range_last_writer_wins_witness :
  let result :=
    ingest.upsert_range testdata.clock 0
      [testdata.paper "Test Paper"; testdata.paper "New Title"]
      testdata.curated 0 in
  result.2 = 2%nat
  ∧ (db.title <$> db.papers result.1 !! str "2301.12345")
    = Some (str "New Title")
  ∧ (db.created_at <$> db.papers result.1 !! str "2301.12345") = Some 100%Z
  ∧ db.library result.1 = db.library testdata.curated.
Proof.
  destruct (upsert_range_last_writer_wins testdata.clock
              [testdata.paper "Test Paper"] [] (testdata.paper "New Title")
              testdata.curated)
    as (Hcount & (row & Hrow & Htitle & _ & _ & _ & _ & _ & _ & _ & Hcreated)
        & _ & Hlib & _); [constructor|].
  cbv zeta.
  change [testdata.paper "Test Paper"; testdata.paper "New Title"]
    with ([testdata.paper "Test Paper"] ++ [testdata.paper "New Title"]).
  split_and!; [exact Hcount| | |exact Hlib].
  - change (str "2301.12345") with (models.ID (testdata.paper "New Title")).
    rewrite Hrow. simpl. by rewrite Htitle.
  - change (str "2301.12345") with (models.ID (testdata.paper "New Title")).
    rewrite Hrow. simpl. f_equal.
    destruct (db.papers testdata.curated
                !! models.ID (testdata.paper "New Title")) as [old|] eqn:Hold;
      [|vm_compute in Hold; discriminate].
    rewrite (Hcreated old eq_refl).
    vm_compute in Hold. injection Hold as <-. reflexivity.
Defined.

(** Host and port from the environment, the rest from the defaults. *)
Lemma Load_environment_witness :
  ∃ cfg, config.Load testdata.os_ReadFile testdata.yaml_Unmarshal
           testdata.os_Getenv testdata.Sscanf_d (str "config.yaml") = inl cfg
         ∧ config.Host (config.Server cfg) = str "localhost"
         ∧ config.Port (config.Server cfg) = 9090%Z
         ∧ ∃ cfg', config.Load testdata.os_ReadFile testdata.yaml_Unmarshal
                     (fun _ => []) testdata.Sscanf_d (str "config.yaml")
                   = inl cfg'
                   ∧ config.Categories (config.ArXiv cfg')
                     = config.Categories (config.ArXiv cfg).
Proof.
  eexists. split; [vm_compute; reflexivity|].
  destruct (Load_environment testdata.os_ReadFile testdata.yaml_Unmarshal
              testdata.Sscanf_d (str "config.yaml") testdata.os_Getenv
              (fun _ => [])) as [Hok _].
  destruct (Hok _ eq_refl)
    as (Hhost & _ & Hport & cfg' & Hcfg' & Hcat & _).
  split_and!.
  - apply Hhost. vm_compute. discriminate.
  - apply Hport; [vm_compute; discriminate|vm_compute; reflexivity].
  - exists cfg'. split; [exact Hcfg'|exact Hcat].
Defined.

(** The run of one hour: two cycles, closed at the end. *)
Lemma cycles_never_overlap_witness :
  scheduler.run testdata.hour testdata.events
    (scheduler.start testdata.hour) = Some testdata.stopped
  ∧ scheduler.alternates false (scheduler.log testdata.stopped)
    = Some false.
Proof.
  split; [vm_compute; reflexivity|].
  apply (cycles_never_overlap testdata.hour testdata.events testdata.stopped).
  vm_compute. reflexivity.
Defined.

(** The second cycle of the run starts at the first tick, one hour after
    the start. *)
Lemma cycle_cadence_witness :
  scheduler.cycle_starts (scheduler.log testdata.stopped) !! 1%nat
  = Some testdata.hour
  ∧ (10 * scheduler.Second ≤ testdata.hour)%Z
  ∧ (Z.of_nat 1 * testdata.hour ≤ testdata.hour)%Z
  ∧ (testdata.hour ≤ scheduler.now testdata.stopped)%Z.
Proof.
  split; [vm_compute; reflexivity|].
  apply (cycle_cadence testdata.hour testdata.events testdata.stopped).
  - reflexivity.
  - vm_compute. reflexivity.
  - vm_compute. reflexivity.
Defined.

(** An hour after the return nothing has happened. *)
Lemma no_cycle_after_return_witness :
  scheduler.run testdata.hour [scheduler.Advance testdata.hour]
    testdata.stopped = Some testdata.later
  ∧ scheduler.at_pc testdata.later = scheduler.Returned
  ∧ scheduler.cycle_starts (scheduler.log testdata.later)
    = scheduler.cycle_starts (scheduler.log testdata.stopped)
  ∧ scheduler.run testdata.hour [scheduler.Tick] testdata.later = None.
Proof.
  split; [vm_compute; reflexivity|].
  destruct (no_cycle_after_return testdata.hour testdata.events
              [scheduler.Advance testdata.hour] testdata.stopped
              testdata.later)
    as (_ & Hpc & _ & _ & Hlog); [vm_compute; reflexivity..|].
  split_and!; [exact Hpc|exact Hlog|vm_compute; reflexivity].
Defined.

(** The tag of the test, sent with blanks around its name. *)
Lemma HandleAddTag_attaches_trimmed_name_witness :
  let result := server.HandleAddTag (Some testdata.add_tag_form) db.empty in
  server.Status result.1 = 200%Z
  ∧ (∃ t, t ∈ db.GetPaperTags (str "2301.12345") result.2
          ∧ models.Tag_Name t = str "machine-learning")
  ∧ server.HandleAddTag (Some testdata.add_tag_form) result.2 = result.
Proof.
  destruct (HandleAddTag_attaches_trimmed_name testdata.add_tag_form
              db.empty) as [_ Hok].
  - intros i j name Hi. simpl in Hi. by rewrite lookup_empty in Hi.
  - destruct Hok as (Hstatus & _ & (t & Hin & Hname & _) & _ & _ & _ & _ & _
                     & Hagain);
      [vm_compute; discriminate..|].
    cbv zeta. split_and!; [exact Hstatus| |exact Hagain].
    exists t. split; [exact Hin|exact Hname].
Defined.

(** Removing the tag of the test from the paper that carries it. *)
Lemma HandleRemoveTag_detaches_witness :
  let d := db.TagPaper (str "2301.12345") 1 testdata.tagged in
  let result :=
    server.HandleRemoveTag testdata.Atoi (Some testdata.remove_tag_form) d in
  server.Status result.1 = 200%Z
  ∧ db.tags result.2 = db.tags d
  ∧ ({| models.Tag_ID := 1; models.Tag_Name := str "machine-learning" |}
       ∉ db.GetPaperTags (str "2301.12345") result.2).
Proof.
  destruct (HandleRemoveTag_detaches testdata.Atoi testdata.remove_tag_form
              (db.TagPaper (str "2301.12345") 1 testdata.tagged))
    as [_ Hok].
  destruct (Hok 1%Z eq_refl) as (Hstatus & _ & Hleft & Htags & _).
  cbv zeta. split_and!; [exact Hstatus|exact Htags|].
  intros Hin%Hleft. by destruct Hin as [_ Hne].
Defined.

(** The paper of the curated store is read: the toggle answers with the
    button of an unread paper. *)
Lemma HandleToggleRead_reports_new_flag_witness :
  server.Body (server.HandleToggleRead (str "2301.12345") testdata.curated).1
  = server.MarkAsReadButton (str "2301.12345").
Proof.
  destruct (HandleToggleRead_reports_new_flag (str "2301.12345")
              testdata.curated) as (_ & _ & Hsaved & _).
  destruct (db.papers testdata.curated !! str "2301.12345") as [paper|]
    eqn:Hpaper; [|vm_compute in Hpaper; discriminate].
  destruct (Hsaved paper {| db.is_read := true; db.saved_at := 150%Z |}
              eq_refl) as [_ Hbody]; [vm_compute; reflexivity|].
  exact Hbody.
Defined.

(** Five results on pages of two. *)
Lemma pages_partition_results_witness :
  server.totalPages 5 2 = Some 3%Z
  ∧ concat ((fun i => db.limit_offset 2 (db.offset (Z.of_nat (S i)) 2)
                        [1; 2; 3; 4; 5]%nat) <$> seq 0 3)
    = [1; 2; 3; 4; 5]%nat
  ∧ db.limit_offset 2 (db.offset 4 2) [1; 2; 3; 4; 5]%nat = [].
Proof.
  destruct (pages_partition_results [1; 2; 3; 4; 5]%nat 2) as [Hpages _].
  destruct Hpages as (n & Hn & _ & _ & Hall & _ & Hlate);
    [vm_compute; reflexivity..|].
  assert (n = 3%Z) as -> by (vm_compute in Hn; congruence).
  split_and!; [exact Hn|exact Hall|].
  apply Hlate; vm_compute; reflexivity.
Defined.

End Examples.
